(** * safeFetch: the SSRF guard with DNS-rebinding protection

    A shallow embedding of the [safeFetch] module: the [PRIVATE]
    regular expression, the promise with its three callbacks (timer,
    'error' listener, connect listener) and [safeFetch] itself, run
    against an explicit model of the platform (URL parser, resolver,
    TCP stack, timers, fetch). Asynchronous code is written in a small
    monad that records a trace of effects and an outcome. *)

From Stdlib Require Import String Ascii List Bool Arith NArith ZArith Lia DecimalString.
Import ListNotations.

Set Implicit Arguments.

Open Scope list_scope.
Open Scope string_scope.

(* ================================================================= *)
(** ** Regular expressions, as far as [PRIVATE] needs them *)

Module Regex.

(** The fragment of the JavaScript pattern language that occurs in
    [PRIVATE]: literal characters, character ranges [[a-b]],
    concatenation and alternation. *)
Inductive t : Type :=
| Never : t
| Eps : t
| Chr (c : ascii) : t
| Range (lo hi : ascii) : t
| Cat (r1 r2 : t) : t
| Alt (r1 r2 : t) : t.

(** A literal run of characters, e.g. [192\.168\.]. *)
Fixpoint Lit (s : string) : t :=
  match s with
  | EmptyString => Eps
  | String c s' => Cat (Chr c) (Lit s')
  end.

Definition in_range (lo hi c : ascii) : bool :=
  ((nat_of_ascii lo <=? nat_of_ascii c) && (nat_of_ascii c <=? nat_of_ascii hi))%nat.

(** The language of a pattern. *)
Inductive matches : t -> string -> Prop :=
| m_eps : matches Eps ""
| m_chr c : matches (Chr c) (String c "")
| m_range lo hi c : in_range lo hi c = true -> matches (Range lo hi) (String c "")
| m_cat r1 r2 s1 s2 : matches r1 s1 -> matches r2 s2 -> matches (Cat r1 r2) (s1 ++ s2)
| m_alt_l r1 r2 s : matches r1 s -> matches (Alt r1 r2) s
| m_alt_r r1 r2 s : matches r2 s -> matches (Alt r1 r2) s.

Fixpoint nullable (r : t) : bool :=
  match r with
  | Never => false
  | Eps => true
  | Chr _ => false
  | Range _ _ => false
  | Cat r1 r2 => nullable r1 && nullable r2
  | Alt r1 r2 => nullable r1 || nullable r2
  end.

(** Brzozowski derivative: what is left to match after reading [c]. *)
Fixpoint deriv (c : ascii) (r : t) : t :=
  match r with
  | Never => Never
  | Eps => Never
  | Chr d => if Ascii.eqb c d then Eps else Never
  | Range lo hi => if in_range lo hi c then Eps else Never
  | Cat r1 r2 =>
      if nullable r1 then Alt (Cat (deriv c r1) r2) (deriv c r2)
      else Cat (deriv c r1) r2
  | Alt r1 r2 => Alt (deriv c r1) (deriv c r2)
  end.

(** [/^r/.test(s)]: the pattern is anchored at the start only, so the
    test succeeds as soon as some prefix of [s] is in the language. *)
Fixpoint test_anchored (r : t) (s : string) : bool :=
  nullable r ||
  match s with
  | EmptyString => false
  | String c s' => test_anchored (deriv c r) s'
  end.

(** A pattern that can no longer match anything. *)
Fixpoint dead (r : t) : bool :=
  match r with
  | Never => true
  | Cat r1 r2 => dead r1 || dead r2
  | Alt r1 r2 => dead r1 && dead r2
  | _ => false
  end.

(** Reads [s] and reports the verdict when it is already settled
    whatever follows [s]: [Some true] once a prefix matched,
    [Some false] once the residual pattern is dead. *)
Fixpoint settle (r : t) (s : string) : option bool :=
  if nullable r then Some true
  else if dead r then Some false
  else match s with
       | EmptyString => None
       | String c s' => settle (deriv c r) s'
       end.

End Regex.

(* ================================================================= *)
(** ** The [PRIVATE] pattern (line 36) *)

Import Regex.

(** [/^(10\.|172\.(1[6-9]|2[0-9]|3[0-1])\.|192\.168\.|127\.|169\.254\.)/] *)
Definition PRIVATE : Regex.t :=
  Alt (Lit "10.")
 (Alt (Cat (Lit "172.")
      (Cat (Alt (Cat (Chr "1") (Range "6" "9"))
           (Alt (Cat (Chr "2") (Range "0" "9"))
                (Cat (Chr "3") (Range "0" "1"))))
           (Chr ".")))
 (Alt (Lit "192.168.")
 (Alt (Lit "127.")
      (Lit "169.254.")))).

(** [PRIVATE.test(s)]. The pattern has no [g] or [y] flag, so the test
    keeps no state between calls. *)
Definition PRIVATE_test (s : string) : bool := test_anchored PRIVATE s.

(* ================================================================= *)
(** ** IPv4 addresses as the resolver and the socket report them *)

Module IPv4.

(** Four octets; [wf] says each fits a byte. *)
Record t : Type := mk { o1 : N; o2 : N; o3 : N; o4 : N }.

Definition wf (a : t) : Prop :=
  (o1 a < 256 /\ o2 a < 256 /\ o3 a < 256 /\ o4 a < 256)%N.

Definition value (a : t) : N :=
  (((o1 a * 256 + o2 a) * 256 + o3 a) * 256 + o4 a)%N.

Definition show_octet (n : N) : string :=
  NilZero.string_of_uint (N.to_uint n).

(** Dotted-decimal text without leading zeros, the form in which
    [dns.resolve4] and [socket.remoteAddress] hand out an address. *)
Definition show (a : t) : string :=
  show_octet (o1 a) ++ "." ++ show_octet (o2 a) ++ "." ++
  show_octet (o3 a) ++ "." ++ show_octet (o4 a).

(** A CIDR block [base/len]. *)
Record block : Type := cidr { base : t; len : N }.

Definition in_block (a : t) (b : block) : bool :=
  (value a / 2 ^ (32 - len b) =? value (base b) / 2 ^ (32 - len b))%N.

(** The five ranges named by the specification:
    10.0.0.0/8, 172.16.0.0/12, 192.168.0.0/16, 127.0.0.0/8,
    169.254.0.0/16. *)
Definition private_blocks : list block :=
  [ cidr (mk 10 0 0 0) 8;
    cidr (mk 172 16 0 0) 12;
    cidr (mk 192 168 0 0) 16;
    cidr (mk 127 0 0 0) 8;
    cidr (mk 169 254 0 0) 16 ].

Definition in_private_block (a : t) : bool :=
  existsb (in_block a) private_blocks.

(** The same five ranges read off the first two octets. *)
Definition private_octets (a b : N) : bool :=
  ((a =? 10) || ((a =? 172) && (16 <=? b) && (b <=? 31)) ||
   ((a =? 192) && (b =? 168)) || (a =? 127) ||
   ((a =? 169) && (b =? 254)))%N.

(** All byte values, and the text of an address up to and including
    the second dot. *)
Definition octets : list N := map N.of_nat (seq 0 256).

Definition head_text (a b : N) : string :=
  show_octet a ++ "." ++ show_octet b ++ ".".

Definition verdict_eqb (x : option bool) (b : bool) : bool :=
  match x with Some c => Bool.eqb c b | None => false end.

(** An answer of the resolver, or a peer address, that is the text of
    an address inside, respectively outside, the five ranges. *)
Definition private_text (ip : string) : Prop :=
  exists a, wf a /\ ip = show a /\ in_private_block a = true.


End IPv4.

(* ================================================================= *)
(** ** JavaScript values that cross the boundary of [safeFetch] *)

Module JS.

(** The fields of a parsed [URL] that matter here. [port] is [None]
    where the [URL] object has the empty string (no explicit port, or
    the scheme's default one). *)
Record URL : Type := mkURL { protocol : string; hostname : string; port : option N }.

Record Response : Type := mkResponse { contentType : string; body : string }.

(** What can be thrown, or reject a promise, inside [safeFetch]. *)
Inductive Thrown : Type :=
| TypeError_invalid_URL (input : string)   (* thrown by [new URL(raw)] *)
| Error (message : string)                 (* [new Error(message)] *)
| DnsError (code : string)                 (* rejection of [dns.resolve4] *)
| SocketError (code : string)              (* the [err] of the socket's 'error' event *)
| FetchError (cause : string).             (* rejection of [fetch] *)

(** What the transport reports on a socket after [connect] was called.
    ['connect'] carries the value [socket.remoteAddress] then reads
    ([None] for [undefined]). *)
Inductive SocketEvent : Type :=
| ev_connect (remoteAddress : option string)
| ev_error (err : string).

(** [RegExp.prototype.test] applies [ToString] to its argument. *)
Definition ToString (v : option string) : string :=
  match v with
  | Some s => s
  | None => "undefined"
  end.

(** How a call ends: the promise is fulfilled, rejected, or never
    settled. *)
Inductive Outcome (A : Type) : Type :=
| Fulfilled (a : A)
| Rejected (e : Thrown)
| Pending.

Arguments Fulfilled {A} a.
Arguments Rejected {A} e.
Arguments Pending {A}.

End JS.

Import JS.

(* ================================================================= *)
(** ** The platform *)

(** Everything [safeFetch] obtains from outside itself. Times are in
    milliseconds, counted from the call of [socket.connect]. *)
Record World : Type := mkWorld {
  (** [new URL(raw)]; [None] when the constructor throws. *)
  parse_url : string -> option URL;
  (** [dns.resolve4(hostname)]: a rejection code or the answer sequence. *)
  resolve4 : string -> string + list string;
  (** What the network does to a socket dialled at [(port, host)]: the
      events it will emit, in order, each with its time of delivery. *)
  tcp : N -> option string -> list (N * SocketEvent);
  (** The name resolution the [fetch] primitive performs on its own
      when it runs, after the handshake. *)
  fetch_lookup : string -> string + string;
  (** Retrieval of [input] from [(address, port)]. *)
  http_get : string -> N -> string -> string + Response
}.

(** Observable actions, in the order in which they happen. *)
Inductive Effect : Type :=
| E_resolve4 (hostname : string)
| E_new_Socket
| E_setTimeout (ms : N)
| E_clearTimeout
| E_once_error
| E_connect (port : N) (host : option string)
| E_destroy
| E_end
| E_fetch (input : string)
| E_fetch_lookup (hostname : string)
| E_fetch_request (address : string) (port : N).

(* ================================================================= *)
(** ** A monad for asynchronous code: a trace and an outcome *)

Definition M (A : Type) : Type := (list Effect * Outcome A)%type.

Definition ret {A} (a : A) : M A := ([], Fulfilled a).

Definition throw {A} (e : Thrown) : M A := ([], Rejected e).

Definition emit (e : Effect) : M unit := ([e], Fulfilled tt).

Definition bind {A B} (m : M A) (k : A -> M B) : M B :=
  match m with
  | (tr, Fulfilled a) => let (tr', r) := k a in ((tr ++ tr')%list, r)
  | (tr, Rejected e) => (tr, Rejected e)
  | (tr, Pending) => (tr, Pending)
  end.

Declare Scope async_scope.
Delimit Scope async_scope with async.

Notation "x <- m ;; k" := (bind m (fun x => k))
  (at level 100, m at next level, right associativity) : async_scope.
Notation "m ;; k" := (bind m (fun _ => k))
  (at level 100, right associativity) : async_scope.

Open Scope async_scope.

(* ================================================================= *)
(** ** The handshake promise (lines 75-102) *)

Module Handshake.

(** The socket, the timer and the promise created by the executor. *)
Record state : Type := mk {
  timer : option N;                 (* delay of the pending timer, if any *)
  listening : bool;                 (* the [once('error')] listener is attached *)
  destroyed : bool;                 (* [socket.destroy()] was called *)
  settled : option (Thrown + unit); (* the promise: the first [ok]/[nok] wins *)
  log : list Effect
}.

Definition init : state := mk None false false None [].

Definition note (e : Effect) (h : state) : state :=
  mk (timer h) (listening h) (destroyed h) (settled h) (log h ++ [e])%list.

Definition new_Socket (h : state) : state := note E_new_Socket h.

Definition setTimeout (ms : N) (h : state) : state :=
  note (E_setTimeout ms) (mk (Some ms) (listening h) (destroyed h) (settled h) (log h)).

Definition clearTimeout (h : state) : state :=
  note E_clearTimeout (mk None (listening h) (destroyed h) (settled h) (log h)).

Definition socket_once_error (h : state) : state :=
  note E_once_error (mk (timer h) true (destroyed h) (settled h) (log h)).

Definition socket_connect (port : N) (host : option string) (h : state) : state :=
  note (E_connect port host) h.

Definition socket_destroy (h : state) : state :=
  note E_destroy (mk (timer h) (listening h) true (settled h) (log h)).

Definition socket_end (h : state) : state := note E_end h.

Definition settle_with (r : Thrown + unit) (h : state) : state :=
  match settled h with
  | Some _ => h
  | None => mk (timer h) (listening h) (destroyed h) (Some r) (log h)
  end.

Definition ok (h : state) : state := settle_with (inr tt) h.
Definition nok (e : Thrown) (h : state) : state := settle_with (inl e) h.

Notation "h |> f" := (f h) (at level 50, left associativity, only parsing).

(** Lines 79-82: the callback handed to [setTimeout]. *)
Definition timer_callback (h : state) : state :=
  mk None (listening h) (destroyed h) (settled h) (log h)
    |> socket_destroy
    |> nok (Error "timeout handshake").

(** Lines 84-88: the ['error'] listener. *)
Definition error_listener (err : string) (h : state) : state :=
  h |> clearTimeout
    |> socket_destroy
    |> nok (SocketError err).

(** Lines 90-101: the connect listener. *)
Definition connect_listener (remoteAddress : option string) (h : state) : state :=
  let h := clearTimeout h in
  let remote := remoteAddress in
  if PRIVATE_test (ToString remote) then
    h |> socket_destroy |> nok (Error "IP privado após handshake")
  else
    h |> socket_end |> ok.

(** Lines 76-90: the executor up to the return of [socket.connect]. *)
Definition executor (target : option string) : state :=
  init |> new_Socket
       |> setTimeout 3000
       |> socket_once_error
       |> socket_connect 443 target.

(** Delivery of one socket event. A destroyed socket emits nothing;
    a [once] listener is detached before it runs. *)
Definition deliver (ev : SocketEvent) (h : state) : state :=
  if destroyed h then h
  else match ev with
       | ev_connect remoteAddress => connect_listener remoteAddress h
       | ev_error err =>
           if listening h then
             error_listener err (mk (timer h) false (destroyed h) (settled h) (log h))
           else h
       end.

(** The event loop while the caller awaits the promise. Socket events
    come in the order of the script; a pending timer runs before any
    event whose time is not below its delay (timers are served before
    I/O callbacks). The loop stops when the promise is settled. *)
Fixpoint event_loop (script : list (N * SocketEvent)) (h : state) : state :=
  match settled h with
  | Some _ => h
  | None =>
      match script with
      | [] =>
          match timer h with
          | Some _ => timer_callback h
          | None => h
          end
      | (at_ms, ev) :: rest =>
          match timer h with
          | Some delay =>
              if (at_ms <? delay)%N then event_loop rest (deliver ev h)
              else timer_callback h
          | None => event_loop rest (deliver ev h)
          end
      end
  end.

End Handshake.

(* ================================================================= *)
(** ** [safeFetch] (lines 51-109) *)

Section SafeFetch.

Variable W : World.

(** [new URL(raw)] *)
Definition new_URL (raw : string) : M URL :=
  match parse_url W raw with
  | Some url => ret url
  | None => throw (TypeError_invalid_URL raw)
  end.

(** [await dns.resolve4(hostname)] *)
Definition dns_resolve4 (hostname : string) : M (list string) :=
  emit (E_resolve4 hostname) ;;
  match resolve4 W hostname with
  | inr ips => ret ips
  | inl code => throw (DnsError code)
  end.

(** [await new Promise<void>((ok, nok) => { ... })] for the executor
    of lines 75-102: run it, then serve events until the promise is
    settled. *)
Definition await_handshake (target : option string) : M unit :=
  let h := Handshake.event_loop (tcp W 443 target) (Handshake.executor target) in
  (Handshake.log h,
   match Handshake.settled h with
   | Some (inr tt) => Fulfilled tt
   | Some (inl e) => Rejected e
   | None => Pending
   end).

(** The port a URL without explicit port stands for. *)
Definition default_port (protocol : string) : N :=
  if (protocol =? "https:")%string then 443
  else if (protocol =? "http:")%string then 80
  else 0.

Definition effective_port (url : URL) : N :=
  match port url with
  | Some p => p
  | None => default_port (protocol url)
  end.

(** The global [fetch(input)]: it receives the URL text only, so it
    parses it again, resolves the host name on its own and retrieves
    the content from the address it then obtains, at the URL's port. *)
Definition fetch (input : string) : M Response :=
  emit (E_fetch input) ;;
  match parse_url W input with
  | None => throw (TypeError_invalid_URL input)
  | Some url =>
      emit (E_fetch_lookup (hostname url)) ;;
      match fetch_lookup W (hostname url) with
      | inl cause => throw (FetchError cause)
      | inr address =>
          emit (E_fetch_request address (effective_port url)) ;;
          match http_get W address (effective_port url) input with
          | inl cause => throw (FetchError cause)
          | inr resp => ret resp
          end
      end
  end.

Definition safeFetch (raw : string) : M Response :=
  url <- new_URL raw ;;
  (* ETAPA 0 *)
  if negb (protocol url =? "https:")%string then
    throw (Error "Apenas HTTPS permitido")
  else
  (* ETAPA 1 *)
  ips <- dns_resolve4 (hostname url) ;;
  if existsb (fun ip => PRIVATE_test ip) ips then
    throw (Error "IP privado na primeira resolução")
  else
  (* ETAPA 2 *)
  let target := nth_error ips 0 in
  await_handshake target ;;
  (* ETAPA 3 *)
  fetch raw.

End SafeFetch.

(* ================================================================= *)
(** ** The error taxonomy of the specification *)

Inductive ErrorKind : Type :=
| invalid_url
| disallowed_scheme
| resolution_error
| private_address_first_pass
| handshake_timeout
| handshake_error
| private_address_post_handshake
| fetch_error.

(** The kind of a failure, read off the value the caller receives. The
    taxonomy names kinds by the phase that raises them, not by
    implementation type. *)
Definition kind_of (e : Thrown) : option ErrorKind :=
  match e with
  | TypeError_invalid_URL _ => Some invalid_url
  | Error message =>
      if (message =? "Apenas HTTPS permitido")%string then Some disallowed_scheme
      else if (message =? "IP privado na primeira resolução")%string then Some private_address_first_pass
      else if (message =? "timeout handshake")%string then Some handshake_timeout
      else if (message =? "IP privado após handshake")%string then Some private_address_post_handshake
      else None
  | DnsError _ => Some resolution_error
  | SocketError _ => Some handshake_error
  | FetchError _ => Some fetch_error
  end.

(** The call fails, and with kind [k]. *)
Definition fails_with (r : M Response) (k : ErrorKind) : Prop :=
  exists e, snd r = Rejected e /\ kind_of e = Some k.

(** Some effect of the trace satisfies [p]. *)
Definition is_fetch (e : Effect) : bool :=
  match e with E_fetch _ => true | _ => false end.

Definition is_resolve4 (e : Effect) : bool :=
  match e with E_resolve4 _ => true | _ => false end.

Definition is_connect (e : Effect) : bool :=
  match e with E_connect _ _ => true | _ => false end.

Definition is_new_Socket (e : Effect) : bool :=
  match e with E_new_Socket => true | _ => false end.

Definition is_destroy (e : Effect) : bool :=
  match e with E_destroy => true | _ => false end.

(** The first socket event of a script, if it beats a timer of [delay]
    milliseconds. *)
Definition first_in_time (delay : N) (script : list (N * SocketEvent)) : option SocketEvent :=
  match script with
  | (at_ms, ev) :: _ => if (at_ms <? delay)%N then Some ev else None
  | [] => None
  end.

(** What the executor has done when [socket.connect] returns. *)
Definition dialled (target : option string) : list Effect :=
  [E_new_Socket; E_setTimeout 3000; E_once_error; E_connect 443 target].

(** What serving the first event in time, or the timer when there is
    none, adds to the trace, and how it settles the promise. *)
Definition served (first : option SocketEvent) : M unit :=
  match first with
  | None => ([E_destroy], Rejected (Error "timeout handshake"))
  | Some (ev_error err) => ([E_clearTimeout; E_destroy], Rejected (SocketError err))
  | Some (ev_connect remoteAddress) =>
      if PRIVATE_test (ToString remoteAddress) then
        ([E_clearTimeout; E_destroy], Rejected (Error "IP privado após handshake"))
      else ([E_clearTimeout; E_end], Fulfilled tt)
  end.

(** [PRIVATE.test(remote)] on the value read from [socket.remoteAddress]. *)
Definition private_peer (remoteAddress : option string) : bool :=
  PRIVATE_test (ToString remoteAddress).

(** The handshake with [target] completed within the 3000 ms budget and
    the peer address then observed is not matched by [PRIVATE]. *)
Definition handshake_verified (W : World) (target : option string) : bool :=
  match first_in_time 3000 (tcp W 443 target) with
  | Some (ev_connect remoteAddress) => negb (private_peer remoteAddress)
  | _ => false
  end.

(** Two worlds in which [fetch(raw)] meets the same platform: the same
    parse, the same resolution at retrieval time, the same servers.
    Their resolvers and TCP stacks may differ at will. *)
Definition same_retrieval (raw : string) (W W' : World) : Prop :=
  parse_url W' raw = parse_url W raw /\
  (forall host, fetch_lookup W' host = fetch_lookup W host) /\
  (forall address port input, http_get W' address port input = http_get W address port input).

(** The eight ways a call can go, each with its trace and outcome. *)
Inductive path (W : World) (raw : string) : M Response -> Prop :=
| via_invalid_url :
    parse_url W raw = None ->
    path W raw ([], Rejected (TypeError_invalid_URL raw))
| via_scheme url :
    parse_url W raw = Some url ->
    protocol url <> "https:" ->
    path W raw ([], Rejected (Error "Apenas HTTPS permitido"))
| via_dns_error url code :
    parse_url W raw = Some url ->
    protocol url = "https:" ->
    resolve4 W (hostname url) = inl code ->
    path W raw ([E_resolve4 (hostname url)], Rejected (DnsError code))
| via_first_pass url ips :
    parse_url W raw = Some url ->
    protocol url = "https:" ->
    resolve4 W (hostname url) = inr ips ->
    existsb PRIVATE_test ips = true ->
    path W raw ([E_resolve4 (hostname url)],
                Rejected (Error "IP privado na primeira resolução"))
| via_timeout url ips :
    parse_url W raw = Some url ->
    protocol url = "https:" ->
    resolve4 W (hostname url) = inr ips ->
    existsb PRIVATE_test ips = false ->
    first_in_time 3000 (tcp W 443 (nth_error ips 0)) = None ->
    path W raw ((E_resolve4 (hostname url) :: dialled (nth_error ips 0) ++ [E_destroy])%list,
                Rejected (Error "timeout handshake"))
| via_socket_error url ips err :
    parse_url W raw = Some url ->
    protocol url = "https:" ->
    resolve4 W (hostname url) = inr ips ->
    existsb PRIVATE_test ips = false ->
    first_in_time 3000 (tcp W 443 (nth_error ips 0)) = Some (ev_error err) ->
    path W raw ((E_resolve4 (hostname url) :: dialled (nth_error ips 0) ++
                   [E_clearTimeout; E_destroy])%list,
                Rejected (SocketError err))
| via_post_handshake url ips remoteAddress :
    parse_url W raw = Some url ->
    protocol url = "https:" ->
    resolve4 W (hostname url) = inr ips ->
    existsb PRIVATE_test ips = false ->
    first_in_time 3000 (tcp W 443 (nth_error ips 0)) = Some (ev_connect remoteAddress) ->
    private_peer remoteAddress = true ->
    path W raw ((E_resolve4 (hostname url) :: dialled (nth_error ips 0) ++
                   [E_clearTimeout; E_destroy])%list,
                Rejected (Error "IP privado após handshake"))
| via_verified url ips remoteAddress :
    parse_url W raw = Some url ->
    protocol url = "https:" ->
    resolve4 W (hostname url) = inr ips ->
    existsb PRIVATE_test ips = false ->
    first_in_time 3000 (tcp W 443 (nth_error ips 0)) = Some (ev_connect remoteAddress) ->
    private_peer remoteAddress = false ->
    path W raw ((E_resolve4 (hostname url) :: dialled (nth_error ips 0) ++
                   [E_clearTimeout; E_end] ++ fst (fetch W raw))%list,
                snd (fetch W raw)).

(* ================================================================= *)
(** ** What the platform guarantees beyond its types *)



(** Example worlds. *)
Module Examples.

Definition url_of (raw : string) : option URL :=
  if (raw =? "https://example.com/a.png")%string then
    Some (mkURL "https:" "example.com" None)
  else if (raw =? "https://example.com:8443/a.png")%string then
    Some (mkURL "https:" "example.com" (Some 8443%N))
  else if (raw =? "http://example.com/a.png")%string then
    Some (mkURL "http:" "example.com" None)
  else if (raw =? "ftp://example.com/a.png")%string then
    Some (mkURL "ftp:" "example.com" None)
  else None.

Definition png : Response := mkResponse "image/png" "PNG".

Definition serve (address : string) (port : N) (input : string) : string + Response :=
  inr png.

(** An honest network: the name has one public address and the peer
    that answers after 20 ms is that address. *)
Definition honest : World :=
  mkWorld url_of
          (fun _ => inr ["93.184.216.34"])
          (fun _ host => [(20%N, ev_connect host)])
          (fun _ => inr "93.184.216.34")
          serve.

(** A mixed answer: public first, private second. *)
Definition mixed : World :=
  mkWorld url_of
          (fun _ => inr ["93.184.216.34"; "169.254.169.254"])
          (fun _ host => [(20%N, ev_connect host)])
          (fun _ => inr "93.184.216.34")
          serve.

(** The connection ends up at a loopback peer although the answer was
    public. *)
Definition redirected : World :=
  mkWorld url_of
          (fun _ => inr ["93.184.216.34"])
          (fun _ _ => [(20%N, ev_connect (Some "127.0.0.1"))])
          (fun _ => inr "93.184.216.34")
          serve.

(** Rebinding between the handshake and the retrieval: the handshake
    sees the public address, the resolution made by [fetch] gets the
    metadata address. *)
Definition rebinding : World :=
  mkWorld url_of
          (fun _ => inr ["93.184.216.34"])
          (fun _ host => [(20%N, ev_connect host)])
          (fun _ => inr "169.254.169.254")
          serve.

(** A peer that completes the handshake only after 5 seconds. *)
Definition slow : World :=
  mkWorld url_of
          (fun _ => inr ["93.184.216.34"])
          (fun _ host => [(5000%N, ev_connect host)])
          (fun _ => inr "93.184.216.34")
          serve.

(** A peer that never answers. *)
Definition silent : World :=
  mkWorld url_of
          (fun _ => inr ["93.184.216.34"])
          (fun _ _ => [])
          (fun _ => inr "93.184.216.34")
          serve.

(** The port is closed: the socket reports an error after 5 ms. *)
Definition refused : World :=
  mkWorld url_of
          (fun _ => inr ["93.184.216.34"])
          (fun _ _ => [(5%N, ev_error "ECONNREFUSED")])
          (fun _ => inr "93.184.216.34")
          serve.



End Examples.

(* ================================================================= *)
(** ** The texts a pattern accepts *)

Module RegexLang.

(** Every character code. *)
Definition alphabet : list ascii := map ascii_of_nat (seq 0 256).

(** The characters after which the pattern can still match. *)
Definition live (r : Regex.t) : list ascii :=
  filter (fun c => negb (dead (deriv c r))) alphabet.

(** Within [n] characters the pattern has either matched or died. *)
Fixpoint bounded (n : nat) (r : Regex.t) : bool :=
  nullable r || dead r ||
  match n with
  | O => false
  | S n' => forallb (fun c => bounded n' (deriv c r)) (live r)
  end.

(** The shortest texts, of at most [n] characters, at which the
    pattern first matches. *)
Fixpoint shortest (n : nat) (r : Regex.t) : list string :=
  if nullable r then [""]
  else if dead r then []
  else match n with
       | O => []
       | S n' => flat_map (fun c => map (String c) (shortest n' (deriv c r))) (live r)
       end.

Definition starts_with_any (ps : list string) (s : string) : bool :=
  existsb (fun p => prefix p s) ps.

(** [/^r$/.test(s)]: the whole text is in the language. *)
Fixpoint accepts (r : Regex.t) (s : string) : bool :=
  match s with
  | EmptyString => nullable r
  | String c s' => accepts (deriv c r) s'
  end.

End RegexLang.

(** The literal beginnings that [PRIVATE] spells out. *)
Definition private_prefixes : list string :=
  [ "10."; "127."; "169.254.";
    "172.16."; "172.17."; "172.18."; "172.19.";
    "172.20."; "172.21."; "172.22."; "172.23."; "172.24.";
    "172.25."; "172.26."; "172.27."; "172.28."; "172.29.";
    "172.30."; "172.31.";
    "192.168." ].

(* ================================================================= *)
(** ** Counting effects *)

Definition is_end (e : Effect) : bool :=
  match e with E_end => true | _ => false end.

Definition is_setTimeout (e : Effect) : bool :=
  match e with E_setTimeout _ => true | _ => false end.

Definition is_clearTimeout (e : Effect) : bool :=
  match e with E_clearTimeout => true | _ => false end.

(** How many effects of a trace satisfy [p]. *)
Definition count (p : Effect -> bool) (tr : list Effect) : nat :=
  length (filter p tr).

(** The call was rejected by the timer callback. *)
Definition timed_out (r : M Response) : bool :=
  match snd r with
  | Rejected (Error message) => (message =? "timeout handshake")%string
  | _ => false
  end.

(** The text of an IPv4 address as an IPv4-mapped IPv6 address. *)
Definition show_mapped (a : IPv4.t) : string := "::ffff:" ++ IPv4.show a.

(* ================================================================= *)
(** ** The dashboard page: the caller of [safeFetch]
       (app/dashboard/page.tsx, lines 17-35) *)

Module Dashboard.

(** What the page renders from: the two variables set before the JSX. *)
Record data : Type := mk { avatarBase64 : option string; error : option string }.

(** [if (avatarUrl)]: [undefined] and the empty text are falsy. *)
Definition truthy (avatarUrl : option string) : bool :=
  match avatarUrl with
  | Some (String _ _) => true
  | _ => false
  end.

Section Page.

Variable W : World.
(** [Buffer.from(bytes).toString('base64')] *)
Variable base64 : string -> string.
(** The [message] of an error object made by the platform. *)
Variable platform_message : Thrown -> string.

(** [e.message]; every value [safeFetch] rejects with is an [Error]
    instance, so the fallback text of line 31 is never used. *)
Definition message (e : Thrown) : string :=
  match e with
  | Error m => m
  | _ => platform_message e
  end.

(** Lines 18-35. The body of a [Response] is complete in this model,
    so [resp.arrayBuffer()] yields it. The [console.error] of line 32
    is not recorded. *)
Definition Dashboard (avatarUrl : option string) : M data :=
  match avatarUrl with
  | Some (String _ _ as url) =>
      match safeFetch W url with
      | (tr, Fulfilled resp) => (tr, Fulfilled (mk (Some (base64 (body resp))) None))
      | (tr, Rejected e) => (tr, Fulfilled (mk None (Some (message e))))
      | (tr, Pending) => (tr, Pending)
      end
  | _ => ([], Fulfilled (mk None None))
  end.

End Page.

End Dashboard.

(* ================================================================= *)
(** ** The rate limiter (app/actions/transfer.ts, lines 122-141) *)

Module RateLimit.

Record entry : Type := mk { count : N; resetAt : N }.

(** [Map<string, { count, resetAt }>], through [get] and [set] only. *)
Definition store : Type := string -> option entry.

Definition empty : store := fun _ => None.

Definition get (k : string) (m : store) : option entry := m k.

Definition set (k : string) (v : entry) (m : store) : store :=
  fun k' => if (k' =? k)%string then Some v else m k'.

Definition RATE_LIMIT_MAX : N := 10.
Definition RATE_LIMIT_WINDOW : N := 60000.

(** [checkRateLimit(userId)] with [Date.now()] given as [now]. The
    increment of line 139 updates the object held by the map. *)
Definition checkRateLimit (now : N) (userId : string) (m : store) : bool * store :=
  match get userId m with
  | None => (true, set userId (mk 1 (now + RATE_LIMIT_WINDOW)) m)
  | Some userLimit =>
      if (resetAt userLimit <? now)%N then
        (true, set userId (mk 1 (now + RATE_LIMIT_WINDOW)) m)
      else if (RATE_LIMIT_MAX <=? count userLimit)%N then
        (false, m)
      else
        (true, set userId (mk (count userLimit + 1) (resetAt userLimit)) m)
  end.

(** Successive calls for one user at the given times: the answers and
    the final store. *)
Fixpoint calls (userId : string) (times : list N) (m : store) : list bool * store :=
  match times with
  | [] => ([], m)
  | now :: rest =>
      let (ok, m') := checkRateLimit now userId m in
      let (oks, m'') := calls userId rest m' in
      (ok :: oks, m'')
  end.

(** Any calls, by any users at any times: the final store. *)
Fixpoint run (cs : list (N * string)) (m : store) : store :=
  match cs with
  | [] => m
  | (now, userId) :: rest => run rest (snd (checkRateLimit now userId m))
  end.

(** Every counter of the store is between 1 and the maximum. *)
Definition counters_in_range (m : store) : Prop :=
  forall userId e, m userId = Some e -> (1 <= count e <= RATE_LIMIT_MAX)%N.

End RateLimit.

(* ================================================================= *)
(** ** The server actions (app/actions/transfer.ts) *)

Module Transfer.

(** *** Values a client can send *)

(** A JavaScript number, as far as the schema can tell numbers apart:
    an integer value, [NaN], or any other number (a fraction or an
    infinity). *)
Inductive JSNumber : Type :=
| Int (z : Z)
| NaN
| NonInt.

(** The payload of a server action: [unknown]. The keys of an object
    are distinct. Texts are sequences of code units below 256. *)
#[local] Unset Elimination Schemes.

Inductive JSValue : Type :=
| JUndefined
| JNull
| JBool (b : bool)
| JNumber (n : JSNumber)
| JString (s : string)
| JArray (items : list JSValue)
| JObject (fields : list (string * JSValue)).

#[local] Set Elimination Schemes.

(** [obj[key]]: [undefined] when the key is absent. *)
Fixpoint field (key : string) (fields : list (string * JSValue)) : JSValue :=
  match fields with
  | [] => JUndefined
  | (k, v) :: rest => if (k =? key)%string then v else field key rest
  end.

(** [JSON.stringify(v)] is a text for every value but [undefined],
    for which it is [undefined]. *)
Definition stringifiable (v : JSValue) : bool :=
  match v with
  | JUndefined => false
  | _ => true
  end.

(** *** The schemas (lines 37-61 and 294-296) *)

Definition digit : Regex.t := Range "0" "9".

(** [r{n}] *)
Fixpoint times (n : nat) (r : Regex.t) : Regex.t :=
  match n with
  | O => Eps
  | S n' => Cat r (times n' r)
  end.

(** [/^ACC-\d{6}$/] *)
Definition ACCOUNT : Regex.t := Cat (Lit "ACC-") (times 6 digit).

Definition ACCOUNT_test (s : string) : bool := RegexLang.accepts ACCOUNT s.

(** [String.prototype.trim] on code units below 256: tab, line feed,
    vertical tab, form feed, carriage return, space, no-break space. *)
Definition is_space (c : ascii) : bool :=
  existsb (Nat.eqb (nat_of_ascii c)) [9; 10; 11; 12; 13; 32; 160].

Fixpoint trim_start (s : string) : string :=
  match s with
  | EmptyString => EmptyString
  | String c s' => if is_space c then trim_start s' else s
  end.

Fixpoint trim_end (s : string) : string :=
  match s with
  | EmptyString => EmptyString
  | String c s' =>
      match trim_end s' with
      | EmptyString => if is_space c then EmptyString else String c EmptyString
      | t => String c t
      end
  end.

Definition trim (s : string) : string := trim_end (trim_start s).

Record TransferInput : Type := mkInput {
  amount : Z;
  toAccount : string;
  description : option string
}.

(** [z.number().int().positive().max(1_000_000)] *)
Definition parse_amount (v : JSValue) : option Z :=
  match v with
  | JNumber (Int z) => if ((0 <? z) && (z <=? 1000000))%Z then Some z else None
  | _ => None
  end.

(** [z.string().regex(/^ACC-\d{6}$/)] *)
Definition parse_account (v : JSValue) : option string :=
  match v with
  | JString s => if ACCOUNT_test s then Some s else None
  | _ => None
  end.

(** [z.string().max(200).optional().transform(val => val?.trim())] *)
Definition parse_description (v : JSValue) : option (option string) :=
  match v with
  | JUndefined => Some None
  | JString s => if (String.length s <=? 200)%nat then Some (Some (trim s)) else None
  | _ => None
  end.

(** [TransferSchema.parse(payload)]; [None] when it throws a
    [ZodError]. Keys the schema does not name are dropped. *)
Definition TransferSchema_parse (payload : JSValue) : option TransferInput :=
  match payload with
  | JObject fields =>
      match parse_amount (field "amount" fields),
            parse_account (field "toAccount" fields),
            parse_description (field "description" fields) with
      | Some a, Some acc, Some d => Some (mkInput a acc d)
      | _, _, _ => None
      end
  | _ => None
  end.

(** [BalanceQuerySchema.parse(payload)] *)
Definition BalanceQuerySchema_parse (payload : JSValue) : option string :=
  match payload with
  | JObject fields => parse_account (field "accountId" fields)
  | _ => None
  end.

(** *** Results (lines 70-86 and 298-302) *)

Inductive TransferError : Type :=
| unauthorized
| bad_input
| insufficient_funds
| backend
| rate_limited.

Inductive TransferResult : Type :=
| TransferSuccess (transactionId : string) (amount : Z) (toAccount : string)
                  (timestamp : string)
| TransferFailure (error : TransferError) (id : string).

Inductive BalanceError : Type :=
| balance_unauthorized
| balance_invalid_input
| balance_not_found.

Inductive BalanceResult : Type :=
| BalanceSuccess (balance : Z) (currency : string)
| BalanceFailure (error : BalanceError).

(** How an action ends for its caller: with a result object, or with
    a rejected promise. *)
Inductive Completion (A : Type) : Type :=
| Returned (a : A)
| Threw_TypeError.

Arguments Returned {A} a.
Arguments Threw_TypeError {A}.

(** *** The session mock (lines 92-116) *)

Record UserSession : Type := mkSession {
  userId : string;
  email : string;
  roles : list string;
  csrfToken : string
}.

Definition getSession : option UserSession :=
  Some (mkSession "user-123" "user@hardened.com" ["user"; "finance"] "mock-csrf-token").

(** [roles.includes(role)] *)
Definition includes (role : string) (roles : list string) : bool :=
  existsb (String.eqb role) roles.

(** *** What a call reads from its environment *)

Record Env : Type := mkEnv {
  now : N;              (* [Date.now()] in [checkRateLimit] *)
  txn_now : N;          (* [Date.now()] in the transaction id *)
  random36 : string;    (* [Math.random().toString(36).slice(2, 8)] *)
  iso_time : string;    (* [new Date().toISOString()] of the result *)
  uuid : string         (* [crypto.randomUUID()] *)
}.

Definition decimal (n : N) : string := NilZero.string_of_uint (N.to_uint n).

Definition mockBalance : Z := 50000.

(** *** [transferFunds] (lines 162-288) *)

(** The log calls are not recorded, but the arguments they evaluate
    are: [JSON.stringify(payload).slice(...)] throws a [TypeError] when
    [JSON.stringify] yields [undefined], inside the [catch] block and so
    out of the action. The store is the module-level [rateLimitMap]. *)
Definition transferFunds (env : Env) (payload : JSValue) (m : RateLimit.store)
  : Completion TransferResult * RateLimit.store :=
  match getSession with
  | None =>
      if stringifiable payload then
        (Returned (TransferFailure unauthorized (uuid env)), m)
      else (Threw_TypeError, m)
  | Some session =>
      if negb (includes "finance" (roles session)) then
        (Returned (TransferFailure unauthorized (uuid env)), m)
      else
        let (allowed, m') := RateLimit.checkRateLimit (now env) (userId session) m in
        if negb allowed then
          (Returned (TransferFailure rate_limited (uuid env)), m')
        else
          match TransferSchema_parse payload with
          | None =>
              if stringifiable payload then
                (Returned (TransferFailure bad_input (uuid env)), m')
              else (Threw_TypeError, m')
          | Some validatedData =>
              if (mockBalance <? amount validatedData)%Z then
                (Returned (TransferFailure insufficient_funds (uuid env)), m')
              else
                let transactionId :=
                  "TXN-" ++ decimal (txn_now env) ++ "-" ++ random36 env in
                (Returned (TransferSuccess transactionId
                                           (amount validatedData)
                                           (toAccount validatedData)
                                           (iso_time env)), m')
          end
  end.

(** *** [getAccountBalance] (lines 304-332) *)

Definition getAccountBalance (payload : JSValue) : Completion BalanceResult :=
  match getSession with
  | None => Returned (BalanceFailure balance_unauthorized)
  | Some session =>
      match BalanceQuerySchema_parse payload with
      | Some accountId => Returned (BalanceSuccess 50000 "BRL")
      | None => Returned (BalanceFailure balance_invalid_input)
      end
  end.

(** Successive calls of [transferFunds] on the shared store. *)
Fixpoint transfers (cs : list (Env * JSValue)) (m : RateLimit.store)
  : list (Completion TransferResult) :=
  match cs with
  | [] => []
  | (env, payload) :: rest =>
      let (r, m') := transferFunds env payload m in
      r :: transfers rest m'
  end.

(** The text is made of decimal digits only. *)
Fixpoint all_digits (s : string) : bool :=
  match s with
  | EmptyString => true
  | String c s' => in_range "0" "9" c && all_digits s'
  end.

(** What the schema asks of a payload, in words of the payload. *)
Definition description_ok (v : JSValue) : Prop :=
  v = JUndefined \/ exists s, v = JString s /\ String.length s <= 200.

Definition account_format (s : string) : Prop :=
  exists ds, s = "ACC-" ++ ds /\ String.length ds = 6 /\ all_digits ds = true.

End Transfer.

(** What [transferFunds] answers once the limiter has given [allowed]. *)
Definition transfer_answer (env : Transfer.Env) (payload : Transfer.JSValue)
    (allowed : bool) : Transfer.Completion Transfer.TransferResult :=
  if allowed then
    match Transfer.TransferSchema_parse payload with
    | None =>
        if Transfer.stringifiable payload then
          Transfer.Returned (Transfer.TransferFailure Transfer.bad_input (Transfer.uuid env))
        else Transfer.Threw_TypeError
    | Some validatedData =>
        if (Transfer.mockBalance <? Transfer.amount validatedData)%Z then
          Transfer.Returned
            (Transfer.TransferFailure Transfer.insufficient_funds (Transfer.uuid env))
        else
          Transfer.Returned
            (Transfer.TransferSuccess
               ("TXN-" ++ Transfer.decimal (Transfer.txn_now env) ++ "-" ++
                  Transfer.random36 env)
               (Transfer.amount validatedData) (Transfer.toAccount validatedData)
               (Transfer.iso_time env))
    end
  else Transfer.Returned (Transfer.TransferFailure Transfer.rate_limited (Transfer.uuid env)).

(** A result that is the [rate_limited] failure. *)
Definition is_rate_limited (r : Transfer.Completion Transfer.TransferResult) : bool :=
  match r with
  | Transfer.Returned (Transfer.TransferFailure Transfer.rate_limited _) => true
  | _ => false
  end.

(* ================================================================= *)
(** ** The tester of the server action ([TransferTester]) *)

Module TransferTester.
Import Transfer.

Record TestCase : Type := mkCase { name : string; payload : JSValue; expected : string }.

(** Lines 13-39. *)
Definition testCases : list TestCase :=
  [ mkCase "Valor negativo"
           (JObject [("amount", JNumber (Int (-100))); ("toAccount", JString "ACC-123456")])
           "bad_input";
    mkCase "Conta inválida"
           (JObject [("amount", JNumber (Int 1000)); ("toAccount", JString "invalid")])
           "bad_input";
    mkCase "Valor acima do limite"
           (JObject [("amount", JNumber (Int 2000000)); ("toAccount", JString "ACC-123456")])
           "bad_input";
    mkCase "Saldo insuficiente"
           (JObject [("amount", JNumber (Int 100000)); ("toAccount", JString "ACC-123456")])
           "insufficient_funds";
    mkCase "Transferência válida"
           (JObject [("amount", JNumber (Int 1000)); ("toAccount", JString "ACC-123456");
                     ("description", JString "Teste")])
           "success" ].

(** The text of the [error] field. *)
Definition error_name (e : TransferError) : string :=
  match e with
  | unauthorized => "unauthorized"
  | bad_input => "bad_input"
  | insufficient_funds => "insufficient_funds"
  | backend => "backend"
  | rate_limited => "rate_limited"
  end.

(** [passed]: [result?.success ? expected === 'success'
    : result?.error === expected], where a thrown call was stored by
    [runTest] as [{ error: 'Exception thrown', ... }]. *)
Definition passed (result : Completion TransferResult) (expected : string) : bool :=
  match result with
  | Returned (TransferSuccess _ _ _ _) => (expected =? "success")%string
  | Returned (TransferFailure e _) => (error_name e =? expected)%string
  | Threw_TypeError => ("Exception thrown" =? expected)%string
  end.

(** The verdicts of the test cases [cases] run in order, one
    environment per call, on the shared store. *)
Definition verdicts (envs : list Env) (cases : list TestCase) (m : RateLimit.store)
  : list bool :=
  map (fun rc => passed (fst rc) (expected (snd rc)))
      (combine (transfers (combine envs (map payload cases)) m) cases).

End TransferTester.

(* ================================================================= *)
(** * Facts *)

(** ** The pattern matcher *)

Module RegexFacts.

Lemma dead_not_nullable r : dead r = true -> nullable r = false.
Proof.
  induction r; simpl; intros H; try discriminate; auto.
  - apply orb_true_iff in H as [H | H].
    + rewrite (IHr1 H). reflexivity.
    + rewrite (IHr2 H). apply andb_false_r.
  - apply andb_true_iff in H as [H1 H2].
    rewrite (IHr1 H1), (IHr2 H2). reflexivity.
Qed.

Lemma dead_deriv c r : dead r = true -> dead (deriv c r) = true.
Proof.
  induction r; simpl; intros H; try discriminate; auto.
  - apply orb_true_iff in H as [H | H].
    + rewrite (dead_not_nullable r1 H). simpl. rewrite (IHr1 H). reflexivity.
    + destruct (nullable r1); simpl; rewrite H, ?(IHr2 H), ?orb_true_r; reflexivity.
  - apply andb_true_iff in H as [H1 H2].
    rewrite (IHr1 H1), (IHr2 H2). reflexivity.
Qed.

Lemma dead_test r s : dead r = true -> test_anchored r s = false.
Proof.
  revert r. induction s as [| c s IH]; intros r H; simpl;
    rewrite (dead_not_nullable r H); simpl; auto using dead_deriv.
Qed.

Lemma nullable_test r s : nullable r = true -> test_anchored r s = true.
Proof. intros H. destruct s; simpl; rewrite H; reflexivity. Qed.

(** Once [settle] has a verdict, no continuation of the text changes it. *)
Lemma settle_sound r s b : settle r s = Some b -> forall rest, test_anchored r (s ++ rest) = b.
Proof.
  revert r. induction s as [| c s IH]; intros r H rest; simpl in H.
  - destruct (nullable r) eqn:Hn.
    + injection H as <-. now apply nullable_test.
    + destruct (dead r) eqn:Hd; [| discriminate].
      injection H as <-. now apply dead_test.
  - destruct (nullable r) eqn:Hn.
    + injection H as <-. now apply nullable_test.
    + destruct (dead r) eqn:Hd.
      * injection H as <-. now apply dead_test.
      * simpl. rewrite Hn. simpl. now apply IH.
Qed.

Lemma nullable_matches r : nullable r = true <-> matches r "".
Proof.
  split.
  - induction r; simpl; intros H; try discriminate.
    + constructor.
    + apply andb_true_iff in H as [H1 H2].
      change "" with ("" ++ ""). constructor; auto.
    + apply orb_true_iff in H as [H | H]; [apply m_alt_l | apply m_alt_r]; auto.
  - intros H. remember "" as s eqn:Hs. induction H; simpl; try discriminate; auto.
    + destruct s1; [| discriminate]. simpl in Hs. subst s2.
      rewrite IHmatches1, IHmatches2; auto.
    + rewrite IHmatches; auto.
    + rewrite IHmatches; auto using orb_true_r.
Qed.

Lemma deriv_matches c r s : matches (deriv c r) s <-> matches r (String c s).
Proof.
  split.
  - revert s. induction r; simpl; intros s H.
    + inversion H.
    + inversion H.
    + destruct (Ascii.eqb_spec c c0); inversion H; subst. constructor.
    + destruct (in_range lo hi c) eqn:E; inversion H; subst. now constructor.
    + destruct (nullable r1) eqn:Hn.
      * inversion H; subst.
        -- inversion H3; subst. change (String c (s1 ++ s2)) with (String c s1 ++ s2).
           constructor; auto.
        -- change (String c s) with ("" ++ String c s).
           constructor; auto. now apply nullable_matches.
      * inversion H; subst. change (String c (s1 ++ s2)) with (String c s1 ++ s2).
        constructor; auto.
    + inversion H; subst; [apply m_alt_l | apply m_alt_r]; auto.
  - intros H. remember (String c s) as cs eqn:Hcs. revert c s Hcs.
    induction H; intros c' s' Hcs; simpl; try discriminate.
    + injection Hcs as <- <-. rewrite Ascii.eqb_refl. constructor.
    + injection Hcs as <- <-. rewrite H. constructor.
    + destruct s1 as [| d s1].
      * simpl in Hcs. subst s2.
        rewrite (proj2 (nullable_matches r1) H). apply m_alt_r. now apply IHmatches2.
      * simpl in Hcs. injection Hcs as <- <-.
        destruct (nullable r1); [apply m_alt_l |]; constructor; auto.
    + apply m_alt_l. auto.
    + apply m_alt_r. auto.
Qed.

(** [test_anchored] decides "some prefix of the text is in the language". *)
Lemma test_anchored_spec r s :
  test_anchored r s = true <-> exists p q, s = p ++ q /\ matches r p.
Proof.
  revert r. induction s as [| c s IH]; intros r; simpl.
  - rewrite orb_false_r. rewrite nullable_matches. split.
    + intros H. now exists "", "".
    + intros (p & q & Hpq & H). destruct p; [assumption | discriminate].
  - rewrite orb_true_iff, IH, nullable_matches. split.
    + intros [H | (p & q & -> & H)].
      * now exists "", (String c s).
      * exists (String c p), q. split; [reflexivity | now apply deriv_matches].
    + intros (p & q & Hpq & H). destruct p as [| d p].
      * now left.
      * simpl in Hpq. injection Hpq as <- ->. right.
        exists p, q. split; [reflexivity | now apply deriv_matches].
Qed.

End RegexFacts.

(** ** [PRIVATE] against the five CIDR ranges *)

Module IPv4Facts.
Import IPv4.

Lemma in_private_block_octets a :
  wf a -> in_private_block a = private_octets (o1 a) (o2 a).
Proof.
  destruct a as [a b c d]. unfold wf. simpl. intros (Ha & Hb & Hc & Hd).
  unfold in_private_block, private_octets, private_blocks, existsb, in_block, value.
  cbn [base len o1 o2 o3 o4].
  change (2 ^ (32 - 8))%N with 16777216%N.
  change (2 ^ (32 - 12))%N with 1048576%N.
  change (2 ^ (32 - 16))%N with 65536%N.
  rewrite orb_false_r.
  replace ((((a * 256 + b) * 256 + c) * 256 + d) / 16777216)%N with a
    by (zify; Z.to_euclidean_division_equations; lia).
  replace ((((a * 256 + b) * 256 + c) * 256 + d) / 65536)%N with (a * 256 + b)%N
    by (zify; Z.to_euclidean_division_equations; lia).
  replace ((((a * 256 + b) * 256 + c) * 256 + d) / 1048576)%N with (a * 16 + b / 16)%N
    by (zify; Z.to_euclidean_division_equations; lia).
  vm_compute (_ / 16777216)%N. vm_compute (_ / 1048576)%N. vm_compute (_ / 65536)%N.
  apply eq_true_iff_eq.
  rewrite !orb_true_iff, !andb_true_iff, !N.eqb_eq, !N.leb_le.
  zify; Z.to_euclidean_division_equations; lia.
Qed.

Lemma In_octets n : (n < 256)%N -> In n octets.
Proof.
  intros H. unfold octets. rewrite <- (N2Nat.id n).
  apply in_map, in_seq. lia.
Qed.

(** The pattern settles on the first two octets, and agrees there
    with the five ranges: checked on all 65536 pairs. *)
Lemma PRIVATE_table :
  forallb (fun a => forallb (fun b =>
    verdict_eqb (settle PRIVATE (head_text a b)) (private_octets a b)) octets) octets = true.
Proof. vm_compute. reflexivity. Qed.

Lemma PRIVATE_settles a b :
  (a < 256)%N -> (b < 256)%N ->
  settle PRIVATE (head_text a b) = Some (private_octets a b).
Proof.
  intros Ha Hb. pose proof PRIVATE_table as T.
  rewrite forallb_forall in T. specialize (T a (In_octets Ha)).
  rewrite forallb_forall in T. specialize (T b (In_octets Hb)).
  destruct (settle PRIVATE (head_text a b)) as [v |]; simpl in T; [| discriminate].
  apply Bool.eqb_prop in T. now subst.
Qed.

Lemma append_assoc (s1 s2 s3 : string) : (s1 ++ s2) ++ s3 = s1 ++ (s2 ++ s3).
Proof. induction s1; simpl; congruence. Qed.

Lemma show_split a :
  show a = head_text (o1 a) (o2 a) ++ (show_octet (o3 a) ++ "." ++ show_octet (o4 a)).
Proof.
  unfold show, head_text. now rewrite !append_assoc.
Qed.

(** On the text of a well-formed IPv4 address, [PRIVATE] accepts
    exactly the five private ranges. *)
Lemma PRIVATE_test_show a : wf a -> PRIVATE_test (show a) = in_private_block a.
Proof.
  intros Hwf. rewrite (in_private_block_octets Hwf), show_split.
  destruct Hwf as (H1 & H2 & _).
  unfold PRIVATE_test. apply RegexFacts.settle_sound.
  now apply PRIVATE_settles.
Qed.
End IPv4Facts.

(** ** The handshake promise *)

Module HandshakeFacts.
Import Handshake.

Lemma event_loop_settled script h r : settled h = Some r -> event_loop script h = h.
Proof. intros H. destruct script as [| [? ?] ?]; simpl; now rewrite H. Qed.

(** Every callback settles the promise, so the first thing served
    decides: the first socket event when it comes before the timer,
    the timer otherwise. *)
Lemma event_loop_executor script target :
  let h := event_loop script (executor target) in
  log h = (dialled target ++ fst (served (first_in_time 3000 script)))%list /\
  match settled h with
  | Some (inr tt) => Fulfilled tt
  | Some (inl e) => Rejected e
  | None => Pending
  end = snd (served (first_in_time 3000 script)).
Proof.
  destruct script as [| [at_ms ev] rest]; [split; reflexivity |].
  cbn [first_in_time]. simpl event_loop.
  destruct (at_ms <? 3000)%N; [| split; reflexivity].
  destruct ev as [remoteAddress | err]; cbn [served].
  - unfold deliver. cbn [destroyed socket_connect socket_once_error setTimeout new_Socket note init].
    unfold connect_listener.
    destruct (PRIVATE_test (ToString remoteAddress));
      (erewrite event_loop_settled; [split; reflexivity | reflexivity]).
  - erewrite event_loop_settled; [split; reflexivity | reflexivity].
Qed.

Lemma await_handshake_served W target :
  await_handshake W target =
  ((dialled target ++ fst (served (first_in_time 3000 (tcp W 443 target))))%list,
   snd (served (first_in_time 3000 (tcp W 443 target)))).
Proof.
  unfold await_handshake.
  destruct (event_loop_executor (tcp W 443 target) target) as [-> ->].
  reflexivity.
Qed.

(** The promise is always settled: the timer sees to it. *)
Lemma served_settles first : snd (served first) <> Pending.
Proof.
  destruct first as [[r | err] |]; simpl; try discriminate.
  destruct (PRIVATE_test (ToString r)); discriminate.
Qed.

End HandshakeFacts.

(** ** The paths through [safeFetch] *)

Module SafeFetchFacts.

Section Paths.

Variable W : World.
Variable raw : string.

Lemma path_invalid_url :
  parse_url W raw = None ->
  safeFetch W raw = ([], Rejected (TypeError_invalid_URL raw)).
Proof. intros H. unfold safeFetch, new_URL. now rewrite H. Qed.

Variable url : URL.
Hypothesis Hparse : parse_url W raw = Some url.

Lemma path_scheme :
  protocol url <> "https:" ->
  safeFetch W raw = ([], Rejected (Error "Apenas HTTPS permitido")).
Proof.
  intros H. unfold safeFetch, new_URL. rewrite Hparse. simpl.
  apply String.eqb_neq in H. now rewrite H.
Qed.

Hypothesis Hhttps : protocol url = "https:".

Lemma path_dns_error code :
  resolve4 W (hostname url) = inl code ->
  safeFetch W raw = ([E_resolve4 (hostname url)], Rejected (DnsError code)).
Proof.
  intros H. unfold safeFetch, new_URL, dns_resolve4. rewrite Hparse. simpl.
  rewrite Hhttps, String.eqb_refl. simpl. now rewrite H.
Qed.

Variable ips : list string.
Hypothesis Hdns : resolve4 W (hostname url) = inr ips.

Lemma past_lookup :
  safeFetch W raw =
  bind ([E_resolve4 (hostname url)], Fulfilled tt)
       (fun _ =>
          if existsb PRIVATE_test ips then
            throw (Error "IP privado na primeira resolução")
          else
            bind (await_handshake W (nth_error ips 0)) (fun _ => fetch W raw)).
Proof.
  unfold safeFetch, new_URL. rewrite Hparse.
  cbn [bind ret]. rewrite Hhttps, String.eqb_refl. cbn [negb].
  unfold dns_resolve4. rewrite Hdns. cbn [bind emit ret app].
  change (existsb (fun ip => PRIVATE_test ip) ips) with (existsb PRIVATE_test ips).
  destruct (if existsb PRIVATE_test ips then _ else _).
  reflexivity.
Qed.

Lemma path_first_pass :
  existsb PRIVATE_test ips = true ->
  safeFetch W raw =
  ([E_resolve4 (hostname url)], Rejected (Error "IP privado na primeira resolução")).
Proof.
  intros H. rewrite past_lookup. now rewrite H.
Qed.

Hypothesis Hpublic : existsb PRIVATE_test ips = false.

(** Past the first pass: the handshake with [ips[0]], then [fetch]. *)
Lemma path_handshake :
  safeFetch W raw =
  bind (E_resolve4 (hostname url) ::
          dialled (nth_error ips 0) ++
          fst (served (first_in_time 3000 (tcp W 443 (nth_error ips 0)))),
        snd (served (first_in_time 3000 (tcp W 443 (nth_error ips 0)))))%list
       (fun _ => fetch W raw).
Proof.
  rewrite past_lookup, Hpublic, HandshakeFacts.await_handshake_served.
  unfold bind. destruct (snd (served _)); [destruct (fetch W raw) |..]; reflexivity.
Qed.

Lemma path_timeout :
  first_in_time 3000 (tcp W 443 (nth_error ips 0)) = None ->
  safeFetch W raw =
  ((E_resolve4 (hostname url) :: dialled (nth_error ips 0) ++ [E_destroy])%list,
   Rejected (Error "timeout handshake")).
Proof. intros H. rewrite path_handshake, H. reflexivity. Qed.

Lemma path_socket_error err :
  first_in_time 3000 (tcp W 443 (nth_error ips 0)) = Some (ev_error err) ->
  safeFetch W raw =
  ((E_resolve4 (hostname url) :: dialled (nth_error ips 0) ++
      [E_clearTimeout; E_destroy])%list,
   Rejected (SocketError err)).
Proof. intros H. rewrite path_handshake, H. reflexivity. Qed.

Lemma path_post_handshake remoteAddress :
  first_in_time 3000 (tcp W 443 (nth_error ips 0)) = Some (ev_connect remoteAddress) ->
  PRIVATE_test (ToString remoteAddress) = true ->
  safeFetch W raw =
  ((E_resolve4 (hostname url) :: dialled (nth_error ips 0) ++
      [E_clearTimeout; E_destroy])%list,
   Rejected (Error "IP privado após handshake")).
Proof.
  intros H Hp. rewrite path_handshake, H. cbn [served]. rewrite Hp. reflexivity.
Qed.

Lemma path_verified remoteAddress :
  first_in_time 3000 (tcp W 443 (nth_error ips 0)) = Some (ev_connect remoteAddress) ->
  PRIVATE_test (ToString remoteAddress) = false ->
  safeFetch W raw =
  ((E_resolve4 (hostname url) :: dialled (nth_error ips 0) ++
      [E_clearTimeout; E_end] ++ fst (fetch W raw))%list,
   snd (fetch W raw)).
Proof.
  intros H Hp. rewrite path_handshake, H. cbn [served]. rewrite Hp.
  simpl. destruct (fetch W raw). reflexivity.
Qed.

(** The retrieval: what [fetch] does with the text it is given. *)
Lemma fetch_parsed :
  fetch W raw =
  match fetch_lookup W (hostname url) with
  | inl cause =>
      ([E_fetch raw; E_fetch_lookup (hostname url)], Rejected (FetchError cause))
  | inr address =>
      ([E_fetch raw; E_fetch_lookup (hostname url);
        E_fetch_request address (effective_port url)],
       match http_get W address (effective_port url) raw with
       | inl cause => Rejected (FetchError cause)
       | inr resp => Fulfilled resp
       end)
  end.
Proof.
  unfold fetch. rewrite Hparse. simpl.
  destruct (fetch_lookup W (hostname url)); simpl; [reflexivity |].
  destruct (http_get W _ _ raw); reflexivity.
Qed.

End Paths.

End SafeFetchFacts.

(** ** Every call follows one of the eight paths *)

Module PathFacts.
Import SafeFetchFacts.

Lemma safeFetch_path W raw : path W raw (safeFetch W raw).
Proof.
  destruct (parse_url W raw) as [url |] eqn:Hparse.
  2: { rewrite path_invalid_url by assumption. econstructor; eassumption. }
  destruct (string_dec (protocol url) "https:") as [Hs | Hs].
  2: { rewrite (path_scheme _ _ Hparse Hs). econstructor; eassumption. }
  destruct (resolve4 W (hostname url)) as [code | ips] eqn:Hdns.
  { rewrite (path_dns_error _ _ Hparse Hs Hdns). econstructor; eassumption. }
  destruct (existsb PRIVATE_test ips) eqn:Hex.
  { rewrite (path_first_pass _ _ Hparse Hs Hdns Hex). econstructor; eassumption. }
  destruct (first_in_time 3000 (tcp W 443 (nth_error ips 0)))
    as [[remoteAddress | err] |] eqn:Hfirst.
  - destruct (private_peer remoteAddress) eqn:Hp.
    + rewrite (path_post_handshake _ _ Hparse Hs Hdns Hex Hfirst Hp).
      eapply via_post_handshake; eassumption.
    + rewrite (path_verified _ _ Hparse Hs Hdns Hex Hfirst Hp).
      eapply via_verified; eassumption.
  - rewrite (path_socket_error _ _ Hparse Hs Hdns Hex Hfirst). econstructor; eassumption.
  - rewrite (path_timeout _ _ Hparse Hs Hdns Hex Hfirst). econstructor; eassumption.
Qed.

Lemma fetch_starts W input : exists rest, fst (fetch W input) = E_fetch input :: rest.
Proof.
  unfold fetch. destruct (parse_url W input) as [url |]; [| now eexists].
  destruct (fetch_lookup W (hostname url)) as [cause | address]; [now eexists |].
  cbn [bind emit app].
  destruct (http_get W address (effective_port url) input); now eexists.
Qed.

(** A rejection of [fetch] is never one of the guard's own errors. *)
Lemma fetch_rejection W input e :
  snd (fetch W input) = Rejected e ->
  kind_of e = Some fetch_error \/ kind_of e = Some invalid_url.
Proof.
  unfold fetch. destruct (parse_url W input) as [url |].
  - destruct (fetch_lookup W (hostname url)) as [cause | address].
    + cbn. intros [= <-]. now left.
    + cbn [bind emit app].
      destruct (http_get W address (effective_port url) input); cbn.
      * intros [= <-]. now left.
      * discriminate.
  - cbn. intros [= <-]. now right.
Qed.

Lemma fetch_settles W input : snd (fetch W input) <> Pending.
Proof.
  unfold fetch. destruct (parse_url W input) as [url |]; [| discriminate].
  destruct (fetch_lookup W (hostname url)) as [cause | address]; [discriminate |].
  cbn [bind emit app].
  destruct (http_get W address (effective_port url) input); discriminate.
Qed.

Lemma first_in_time_head delay at_ms ev rest :
  (at_ms < delay)%N -> first_in_time delay ((at_ms, ev) :: rest) = Some ev.
Proof. intros H. simpl. apply N.ltb_lt in H. now rewrite H. Qed.

Lemma fails_with_intro (r : M Response) tr e k :
  r = (tr, Rejected e) -> kind_of e = Some k -> fails_with r k.
Proof. intros -> Hk. now exists e. Qed.

Lemma fails_with_kind (r : M Response) tr e k :
  r = (tr, Rejected e) -> fails_with r k -> kind_of e = Some k.
Proof. intros -> (e' & [= <-] & Hk). exact Hk. Qed.

Lemma existsb_PRIVATE_In ip ips :
  In ip ips -> PRIVATE_test ip = true -> existsb PRIVATE_test ips = true.
Proof. intros Hin Hp. apply existsb_exists. now exists ip. Qed.

Lemma private_text_PRIVATE ip : IPv4.private_text ip -> PRIVATE_test ip = true.
Proof.
  intros (a & Hwf & -> & Hb). now rewrite IPv4Facts.PRIVATE_test_show.
Qed.




(** Closes a goal in which a call is claimed to fail with a kind other
    than the one its path gives. *)
Ltac kind_clash :=
  match goal with
  | F : fails_with (safeFetch ?W ?raw) _, E : safeFetch ?W ?raw = (_, Rejected _) |- _ =>
      let K := fresh "K" in pose proof (fails_with_kind E F) as K; discriminate K
  | F : fails_with (safeFetch ?W ?raw) _, E : safeFetch ?W ?raw = (_, snd (fetch _ _)) |- _ =>
      let e := fresh "e" in
      let He := fresh "He" in
      let Hk := fresh "Hk" in
      destruct F as (e & He & Hk); rewrite E in He; cbn [snd] in He;
      destruct (fetch_rejection _ _ He); congruence
  end.

Section Kinds.

Variables (W : World) (raw : string) (url : URL) (ips : list string).
Hypothesis Hparse : parse_url W raw = Some url.
Hypothesis Hhttps : protocol url = "https:".
Hypothesis Hdns : resolve4 W (hostname url) = inr ips.



End Kinds.

End PathFacts.

(* ================================================================= *)
(** * Properties of [safeFetch] *)

Module Claims.
Import SafeFetchFacts PathFacts Examples.

(** C5. A URL whose scheme is not [https:], the unencrypted [http:]
    included, is rejected with the scheme error (kind
    disallowed-scheme) and an empty trace: no DNS lookup was made and
    no socket was created. *)
Theorem C5_scheme_rejected_before_any_network (W : World) (raw : string) (url : URL) :
  parse_url W raw = Some url ->
  protocol url <> "https:" ->
  safeFetch W raw = ([], Rejected (Error "Apenas HTTPS permitido")) /\
  fails_with (safeFetch W raw) disallowed_scheme /\
  existsb is_resolve4 (fst (safeFetch W raw)) = false /\
  existsb is_new_Socket (fst (safeFetch W raw)) = false.
Proof.
  intros Hparse Hs. pose proof (path_scheme _ _ Hparse Hs) as E.
  rewrite E. repeat split. eapply fails_with_intro; reflexivity.
Qed.

Lemma C5_witness :
  safeFetch honest "http://example.com/a.png" =
    ([], Rejected (Error "Apenas HTTPS permitido")) /\
  fails_with (safeFetch honest "http://example.com/a.png") disallowed_scheme /\
  existsb is_resolve4 (fst (safeFetch honest "http://example.com/a.png")) = false /\
  existsb is_new_Socket (fst (safeFetch honest "http://example.com/a.png")) = false.
Proof.
  apply (@C5_scheme_rejected_before_any_network
           honest "http://example.com/a.png" (mkURL "http:" "example.com" None)).
  - reflexivity.
  - simpl. discriminate.
Defined.

(** C3. When the answer of the resolver contains, at any position,
    the text of an address in 10.0.0.0/8, 172.16.0.0/12,
    192.168.0.0/16, 127.0.0.0/8 or 169.254.0.0/16, the call is
    rejected with the first-pass error; the trace holds the lookup
    and nothing else, so no socket was created or dialled. *)
Theorem C3_any_private_answer_rejected
    (W : World) (raw : string) (url : URL) (ips : list string) (ip : string) :
  parse_url W raw = Some url ->
  protocol url = "https:" ->
  resolve4 W (hostname url) = inr ips ->
  In ip ips ->
  IPv4.private_text ip ->
  safeFetch W raw =
    ([E_resolve4 (hostname url)], Rejected (Error "IP privado na primeira resolução")) /\
  fails_with (safeFetch W raw) private_address_first_pass /\
  existsb is_connect (fst (safeFetch W raw)) = false.
Proof.
  intros Hparse Hs Hdns Hin Hpriv.
  assert (Hex : existsb PRIVATE_test ips = true)
    by (eapply existsb_PRIVATE_In; eauto using private_text_PRIVATE).
  pose proof (path_first_pass _ _ Hparse Hs Hdns Hex) as E.
  rewrite E. repeat split. eapply fails_with_intro; reflexivity.
Qed.

Lemma C3_witness :
  safeFetch mixed "https://example.com/a.png" =
    ([E_resolve4 "example.com"], Rejected (Error "IP privado na primeira resolução")) /\
  fails_with (safeFetch mixed "https://example.com/a.png") private_address_first_pass /\
  existsb is_connect (fst (safeFetch mixed "https://example.com/a.png")) = false.
Proof.
  apply (@C3_any_private_answer_rejected
           mixed "https://example.com/a.png" (mkURL "https:" "example.com" None)
           ["93.184.216.34"; "169.254.169.254"] "169.254.169.254").
  - reflexivity.
  - reflexivity.
  - reflexivity.
  - simpl. right. left. reflexivity.
  - exists (IPv4.mk 169 254 169 254). repeat split; reflexivity.
Defined.

(** C6. When no socket event is served before the 3000 ms timer, the
    timer callback destroys the socket and the call is rejected with
    the timeout error (kind handshake-timeout); nothing is fetched. *)
Theorem C6_timeout_aborts_handshake
    (W : World) (raw : string) (url : URL) (ips : list string) :
  parse_url W raw = Some url ->
  protocol url = "https:" ->
  resolve4 W (hostname url) = inr ips ->
  existsb PRIVATE_test ips = false ->
  first_in_time 3000 (tcp W 443 (nth_error ips 0)) = None ->
  safeFetch W raw =
    ([E_resolve4 (hostname url); E_new_Socket; E_setTimeout 3000; E_once_error;
      E_connect 443 (nth_error ips 0); E_destroy],
     Rejected (Error "timeout handshake")) /\
  fails_with (safeFetch W raw) handshake_timeout /\
  existsb is_destroy (fst (safeFetch W raw)) = true /\
  existsb is_fetch (fst (safeFetch W raw)) = false.
Proof.
  intros Hparse Hs Hdns Hex Hfirst.
  pose proof (path_timeout _ _ Hparse Hs Hdns Hex Hfirst) as E.
  rewrite E. repeat split. eapply fails_with_intro; reflexivity.
Qed.

Lemma C6_witness :
  safeFetch slow "https://example.com/a.png" =
    ([E_resolve4 "example.com"; E_new_Socket; E_setTimeout 3000; E_once_error;
      E_connect 443 (Some "93.184.216.34"); E_destroy],
     Rejected (Error "timeout handshake")) /\
  fails_with (safeFetch slow "https://example.com/a.png") handshake_timeout /\
  existsb is_destroy (fst (safeFetch slow "https://example.com/a.png")) = true /\
  existsb is_fetch (fst (safeFetch slow "https://example.com/a.png")) = false.
Proof.
  apply (@C6_timeout_aborts_handshake
           slow "https://example.com/a.png" (mkURL "https:" "example.com" None)
           ["93.184.216.34"]); reflexivity.
Defined.



(** C1. A fetch appears in the trace only when the handshake with
    the selected address completed before the 3000 ms timer and the
    peer address then read from the socket is not private, and it
    comes after the whole handshake; a call in which either
    condition fails is rejected and its trace has no fetch. *)
Theorem C1_fetch_only_after_verified_handshake (W : World) (raw : string) :
  (existsb is_fetch (fst (safeFetch W raw)) = true ->
     exists url ips rest,
       parse_url W raw = Some url /\
       protocol url = "https:" /\
       resolve4 W (hostname url) = inr ips /\
       handshake_verified W (nth_error ips 0) = true /\
       fst (safeFetch W raw) =
         (E_resolve4 (hostname url) :: dialled (nth_error ips 0) ++
            [E_clearTimeout; E_end] ++ E_fetch raw :: rest)%list) /\
  (forall url ips,
     parse_url W raw = Some url ->
     resolve4 W (hostname url) = inr ips ->
     handshake_verified W (nth_error ips 0) = false ->
     existsb is_fetch (fst (safeFetch W raw)) = false) /\
  (existsb is_fetch (fst (safeFetch W raw)) = false ->
     exists e, snd (safeFetch W raw) = Rejected e).
Proof.
  pose proof (safeFetch_path W raw) as P.
  remember (safeFetch W raw) as r eqn:Hr. clear Hr.
  assert (Hver : forall ips remoteAddress,
             first_in_time 3000 (tcp W 443 (nth_error ips 0)) = Some (ev_connect remoteAddress) ->
             private_peer remoteAddress = false ->
             handshake_verified W (nth_error ips 0) = true).
  { intros ips remoteAddress Hfirst Hp. unfold handshake_verified.
    now rewrite Hfirst, Hp. }
  destruct P as [Hparse | url Hparse Hs | url code Hparse Hs Hdns
                 | url ips Hparse Hs Hdns Hex
                 | url ips Hparse Hs Hdns Hex Hfirst
                 | url ips err Hparse Hs Hdns Hex Hfirst
                 | url ips remoteAddress Hparse Hs Hdns Hex Hfirst Hp
                 | url ips remoteAddress Hparse Hs Hdns Hex Hfirst Hp ];
    cbn [fst snd].
  1-7: (split; [discriminate | split; [reflexivity | eauto]]).
  destruct (fetch_starts W raw) as [rest Hrest]. rewrite Hrest.
  split; [| split].
  - intros _. exists url, ips, rest. eauto 10.
  - intros url' ips' Hparse' Hdns' Hno.
    rewrite Hparse in Hparse'. injection Hparse' as <-.
    rewrite Hdns in Hdns'. injection Hdns' as <-.
    rewrite (Hver ips remoteAddress Hfirst Hp) in Hno. discriminate.
  - simpl. discriminate.
Qed.

Lemma C1_witness :
  existsb is_fetch (fst (safeFetch honest "https://example.com/a.png")) = true /\
  handshake_verified honest (Some "93.184.216.34") = true /\
  existsb is_fetch (fst (safeFetch redirected "https://example.com/a.png")) = false /\
  exists e, snd (safeFetch slow "https://example.com/a.png") = Rejected e.
Proof.
  split; [reflexivity |]. split; [reflexivity |]. split.
  - apply (proj1 (proj2 (C1_fetch_only_after_verified_handshake
                           redirected "https://example.com/a.png"))
             (mkURL "https:" "example.com" None) ["93.184.216.34"]); reflexivity.
  - apply (proj2 (proj2 (C1_fetch_only_after_verified_handshake
                           slow "https://example.com/a.png"))).
    reflexivity.
Defined.

(** C7. A call always settles, and every rejection carries a value
    of one of the eight kinds of the taxonomy. A text that [new URL]
    refuses gives kind invalid-url; a socket error served before the
    timer gives kind handshake-error, with the socket destroyed and
    nothing fetched. *)
Theorem C7_failures_are_classified (W : World) (raw : string) :
  snd (safeFetch W raw) <> Pending /\
  (forall e, snd (safeFetch W raw) = Rejected e -> exists k, kind_of e = Some k) /\
  (parse_url W raw = None ->
     safeFetch W raw = ([], Rejected (TypeError_invalid_URL raw)) /\
     fails_with (safeFetch W raw) invalid_url) /\
  (forall url ips err,
     parse_url W raw = Some url ->
     protocol url = "https:" ->
     resolve4 W (hostname url) = inr ips ->
     existsb PRIVATE_test ips = false ->
     first_in_time 3000 (tcp W 443 (nth_error ips 0)) = Some (ev_error err) ->
     safeFetch W raw =
       ([E_resolve4 (hostname url); E_new_Socket; E_setTimeout 3000; E_once_error;
         E_connect 443 (nth_error ips 0); E_clearTimeout; E_destroy],
        Rejected (SocketError err)) /\
     fails_with (safeFetch W raw) handshake_error).
Proof.
  repeat split.
  - destruct (safeFetch_path W raw); cbn [snd]; try discriminate.
    apply fetch_settles.
  - destruct (safeFetch_path W raw); cbn [snd]; intros e He;
      try (injection He as <-; eexists; reflexivity).
    destruct (fetch_rejection _ _ He); eauto.
  - now apply path_invalid_url.
  - eapply fails_with_intro; [now apply path_invalid_url | reflexivity].
  - now apply path_socket_error.
  - eapply fails_with_intro; [eapply path_socket_error; eassumption | reflexivity].
Qed.

Lemma C7_witness :
  fails_with (safeFetch honest "not a url") invalid_url /\
  fails_with (safeFetch refused "https://example.com/a.png") handshake_error /\
  snd (safeFetch silent "https://example.com/a.png") <> Pending.
Proof.
  split; [| split].
  - apply (proj1 (proj2 (proj2 (C7_failures_are_classified honest "not a url")))).
    reflexivity.
  - apply (proj2 (proj2 (proj2 (C7_failures_are_classified
                                  refused "https://example.com/a.png")))
             (mkURL "https:" "example.com" None) ["93.184.216.34"] "ECONNREFUSED");
      reflexivity.
  - apply (proj1 (C7_failures_are_classified silent "https://example.com/a.png")).
Defined.





(** C10. For an accepted URL whose name resolved to public
    addresses, the only connect of the handshake is to port 443 at
    [ips[0]], whatever port the URL names; a retrieval, when there is
    one, is made by [fetch] on the URL text as given, at the URL's
    own port. With an explicit port other than 443 the port of the
    retrieval therefore differs from the port that was verified. *)
Theorem C10_verified_port_fixed_retrieval_port_from_url
    (W : World) (raw : string) (url : URL) (ips : list string) :
  parse_url W raw = Some url ->
  protocol url = "https:" ->
  resolve4 W (hostname url) = inr ips ->
  existsb PRIVATE_test ips = false ->
  In (E_connect 443 (nth_error ips 0)) (fst (safeFetch W raw)) /\
  (forall p host, In (E_connect p host) (fst (safeFetch W raw)) -> p = 443%N) /\
  (forall address q,
     In (E_fetch_request address q) (fst (safeFetch W raw)) ->
     q = effective_port url /\ In (E_fetch raw) (fst (safeFetch W raw))) /\
  (forall p,
     port url = Some p -> p <> 443%N ->
     forall address q,
       In (E_fetch_request address q) (fst (safeFetch W raw)) ->
       q = p /\ q <> 443%N).
Proof.
  intros Hparse Hs Hdns Hex.
  assert (Hshape :
    In (E_connect 443 (nth_error ips 0)) (fst (safeFetch W raw)) /\
    (forall p host, In (E_connect p host) (fst (safeFetch W raw)) -> p = 443%N) /\
    (forall address q,
       In (E_fetch_request address q) (fst (safeFetch W raw)) ->
       q = effective_port url /\ In (E_fetch raw) (fst (safeFetch W raw)))).
  { rewrite (path_handshake _ _ Hparse Hs Hdns Hex).
    destruct (first_in_time 3000 (tcp W 443 (nth_error ips 0)))
      as [[remoteAddress | err] |]; cbn [served].
    1: destruct (PRIVATE_test (ToString remoteAddress)).
    2: rewrite (fetch_parsed _ _ Hparse);
       destruct (fetch_lookup W (hostname url)) as [cause | address'].
    all: cbn; repeat split; intros;
      repeat match goal with
             | H : _ \/ _ |- _ => destruct H
             | H : False |- _ => destruct H
             | H : E_connect _ _ = E_connect _ _ |- _ => injection H as <- <-
             | H : E_fetch_request _ _ = E_fetch_request _ _ |- _ => injection H as <- <-
             | H : _ = _ :> Effect |- _ => discriminate H
             end; auto 10. }
  destruct Hshape as (H1 & H2 & H3).
  split; [exact H1 |]. split; [exact H2 |]. split; [exact H3 |].
  intros p Hp Hne address q Hin. destruct (H3 _ _ Hin) as [-> _].
  unfold effective_port. rewrite Hp. split; [reflexivity | exact Hne].
Qed.

Lemma C10_witness :
  In (E_connect 443 (Some "93.184.216.34"))
     (fst (safeFetch honest "https://example.com:8443/a.png")) /\
  In (E_fetch_request "93.184.216.34" 8443)
     (fst (safeFetch honest "https://example.com:8443/a.png")) /\
  (forall address q,
     In (E_fetch_request address q)
        (fst (safeFetch honest "https://example.com:8443/a.png")) ->
     q = 8443%N /\ q <> 443%N).
Proof.
  destruct (@C10_verified_port_fixed_retrieval_port_from_url
              honest "https://example.com:8443/a.png"
              (mkURL "https:" "example.com" (Some 8443%N)) ["93.184.216.34"]
              eq_refl eq_refl eq_refl eq_refl) as (H1 & _ & _ & H4).
  split; [exact H1 |]. split.
  - vm_compute. tauto.
  - apply (H4 8443%N eq_refl). discriminate.
Defined.

(** C4. Once the handshake is verified, the call is continued by
    [fetch(raw)] on the original text: [fetch] is handed neither the
    dialled nor the observed address, resolves the URL's host name
    anew and requests the content from whatever address that second
    resolution yields. What is retrieved is the same in every world
    that agrees on the platform of the retrieval, however its
    resolver and its handshake went. *)
Theorem C4_retrieval_on_original_url
    (W : World) (raw : string) (url : URL) (ips : list string) :
  parse_url W raw = Some url ->
  protocol url = "https:" ->
  resolve4 W (hostname url) = inr ips ->
  existsb PRIVATE_test ips = false ->
  handshake_verified W (nth_error ips 0) = true ->
  safeFetch W raw =
    ((E_resolve4 (hostname url) :: dialled (nth_error ips 0) ++
        [E_clearTimeout; E_end] ++ fst (fetch W raw))%list,
     snd (fetch W raw)) /\
  (exists rest,
     fst (fetch W raw) = E_fetch raw :: E_fetch_lookup (hostname url) :: rest) /\
  (forall address,
     fetch_lookup W (hostname url) = inr address ->
     fst (fetch W raw) =
       [E_fetch raw; E_fetch_lookup (hostname url);
        E_fetch_request address (effective_port url)]) /\
  (forall W', same_retrieval raw W W' -> fetch W' raw = fetch W raw).
Proof.
  intros Hparse Hs Hdns Hex Hver. repeat split.
  - unfold handshake_verified in Hver.
    destruct (first_in_time 3000 (tcp W 443 (nth_error ips 0)))
      as [[remoteAddress | err] |] eqn:Hfirst; try discriminate.
    apply negb_true_iff in Hver.
    exact (path_verified _ _ Hparse Hs Hdns Hex Hfirst Hver).
  - rewrite (fetch_parsed _ _ Hparse).
    destruct (fetch_lookup W (hostname url)); eexists; reflexivity.
  - intros address Hl. rewrite (fetch_parsed _ _ Hparse), Hl. reflexivity.
  - intros W' (Hp' & Hl' & Hg'). unfold fetch. rewrite Hp', Hparse, Hl'.
    destruct (fetch_lookup W (hostname url)) as [cause | address]; [reflexivity |].
    now rewrite Hg'.
Qed.

(** The retrieval of the rebinding world: the handshake verified
    93.184.216.34, the content is requested from 169.254.169.254. *)
Lemma C4_witness :
  handshake_verified rebinding (Some "93.184.216.34") = true /\
  safeFetch rebinding "https://example.com/a.png" =
    ([E_resolve4 "example.com"; E_new_Socket; E_setTimeout 3000; E_once_error;
      E_connect 443 (Some "93.184.216.34"); E_clearTimeout; E_end;
      E_fetch "https://example.com/a.png"; E_fetch_lookup "example.com";
      E_fetch_request "169.254.169.254" 443],
     Fulfilled png).
Proof.
  split; [reflexivity |].
  destruct (@C4_retrieval_on_original_url
              rebinding "https://example.com/a.png"
              (mkURL "https:" "example.com" None) ["93.184.216.34"]
              eq_refl eq_refl eq_refl eq_refl eq_refl) as (E & _ & Hreq & _).
  rewrite E. rewrite (Hreq "169.254.169.254" eq_refl). reflexivity.
Defined.

End Claims.

(* ================================================================= *)
(** * Further properties *)

(** ** What [PRIVATE] accepts, on any text *)

Module RegexLangFacts.
Import RegexLang RegexFacts.

Lemma In_alphabet c : In c alphabet.
Proof.
  unfold alphabet. apply in_map_iff. exists (nat_of_ascii c).
  split; [apply ascii_nat_embedding |].
  pose proof (nat_ascii_bounded c) as Hb.
  remember (nat_of_ascii c) as n eqn:Hn. clear Hn.
  apply in_seq. lia.
Qed.

Lemma live_spec r c : In c (live r) <-> dead (deriv c r) = false.
Proof.
  unfold live. rewrite filter_In, negb_true_iff. split; [tauto |].
  intros H. split; [apply In_alphabet | exact H].
Qed.

Lemma existsb_eqb_In c l : existsb (Ascii.eqb c) l = true <-> In c l.
Proof.
  rewrite existsb_exists. split.
  - intros (x & Hin & Hx). apply Ascii.eqb_eq in Hx. now subst.
  - intros H. exists c. split; [exact H | apply Ascii.eqb_refl].
Qed.

Lemma prefix_cons a p b s :
  prefix (String a p) (String b s) = Ascii.eqb b a && prefix p s.
Proof.
  simpl. destruct (ascii_dec a b) as [-> | Hne].
  - now rewrite Ascii.eqb_refl.
  - destruct (Ascii.eqb_spec b a); [congruence | reflexivity].
Qed.

Lemma starts_with_any_step (f : ascii -> list string) l c s :
  starts_with_any (flat_map (fun c' => map (String c') (f c')) l) (String c s) =
  existsb (Ascii.eqb c) l && starts_with_any (f c) s.
Proof.
  unfold starts_with_any. induction l as [| a l IH]; [reflexivity |].
  cbn [flat_map existsb]. rewrite existsb_app, IH.
  assert (E : existsb (fun p => prefix p (String c s)) (map (String a) (f a)) =
              Ascii.eqb c a && existsb (fun p => prefix p s) (f a)).
  { induction (f a) as [| p ps IHp]; cbn [map existsb].
    - now rewrite andb_false_r.
    - rewrite IHp, prefix_cons. destruct (Ascii.eqb c a); reflexivity. }
  rewrite E. destruct (Ascii.eqb_spec c a) as [-> | Hne]; cbn [andb orb].
  - destruct (existsb (fun p => prefix p s) (f a)); [reflexivity |].
    destruct (existsb (Ascii.eqb a) l); reflexivity.
  - reflexivity.
Qed.

Lemma starts_with_any_step_nil (f : ascii -> list string) l :
  starts_with_any (flat_map (fun c' => map (String c') (f c')) l) "" = false.
Proof.
  unfold starts_with_any. induction l as [| a l IH]; [reflexivity |].
  cbn [flat_map]. rewrite existsb_app, IH, orb_false_r.
  induction (f a) as [| p ps IHp]; [reflexivity | exact IHp].
Qed.

Lemma bounded_S n r :
  bounded (S n) r =
  nullable r || dead r || forallb (fun c => bounded n (deriv c r)) (live r).
Proof. reflexivity. Qed.

Lemma shortest_nullable n r : nullable r = true -> shortest n r = [""].
Proof. intros H. destruct n; simpl; now rewrite H. Qed.

Lemma shortest_dead n r : nullable r = false -> dead r = true -> shortest n r = [].
Proof. intros Hn Hd. destruct n; simpl; now rewrite Hn, Hd. Qed.

Lemma shortest_S n r :
  nullable r = false -> dead r = false ->
  shortest (S n) r =
  flat_map (fun c => map (String c) (shortest n (deriv c r))) (live r).
Proof. intros Hn Hd. simpl. now rewrite Hn, Hd. Qed.

Lemma starts_with_empty s : starts_with_any [""] s = true.
Proof. now destruct s. Qed.

Lemma test_anchored_cons r c s :
  nullable r = false -> test_anchored r (String c s) = test_anchored (deriv c r) s.
Proof. intros H. simpl. now rewrite H. Qed.

Lemma test_anchored_nil r : test_anchored r "" = nullable r.
Proof. simpl. apply orb_false_r. Qed.

(** A pattern that is settled within [n] characters accepts exactly
    the texts that begin with one of its shortest matches. *)
Lemma bounded_shortest n :
  forall r s, bounded n r = true ->
              test_anchored r s = starts_with_any (shortest n r) s.
Proof.
  induction n as [| n IH]; intros r s Hb.
  - destruct (nullable r) eqn:Hn.
    + now rewrite nullable_test, shortest_nullable, starts_with_empty.
    + destruct (dead r) eqn:Hd.
      * now rewrite dead_test, shortest_dead.
      * simpl in Hb. rewrite Hn, Hd in Hb. discriminate.
  - destruct (nullable r) eqn:Hn.
    + now rewrite nullable_test, shortest_nullable, starts_with_empty.
    + destruct (dead r) eqn:Hd.
      * now rewrite dead_test, shortest_dead.
      * rewrite bounded_S, Hn, Hd in Hb. rewrite orb_false_l in Hb.
        rewrite forallb_forall in Hb.
        rewrite shortest_S by assumption.
        destruct s as [| c s].
        -- now rewrite test_anchored_nil, starts_with_any_step_nil.
        -- rewrite test_anchored_cons, starts_with_any_step by assumption.
           destruct (existsb (Ascii.eqb c) (live r)) eqn:Hin.
           ++ rewrite andb_true_l. apply existsb_eqb_In in Hin. apply IH, Hb, Hin.
           ++ rewrite andb_false_l. apply dead_test.
              destruct (dead (deriv c r)) eqn:Hdc; [reflexivity |].
              apply live_spec, existsb_eqb_In in Hdc. congruence.
Qed.

Lemma PRIVATE_bounded : bounded 8 PRIVATE = true.
Proof. vm_compute. reflexivity. Qed.

Lemma PRIVATE_shortest : shortest 8 PRIVATE = private_prefixes.
Proof. vm_compute. reflexivity. Qed.

Lemma PRIVATE_test_prefixes s : PRIVATE_test s = starts_with_any private_prefixes s.
Proof.
  unfold PRIVATE_test. rewrite <- PRIVATE_shortest.
  apply bounded_shortest, PRIVATE_bounded.
Qed.

Lemma PRIVATE_test_not_1 c s : c <> "1"%char -> PRIVATE_test (String c s) = false.
Proof.
  intros Hc. rewrite PRIVATE_test_prefixes.
  unfold starts_with_any, private_prefixes. cbn [existsb].
  rewrite !prefix_cons.
  destruct (Ascii.eqb_spec c "1"); [contradiction | reflexivity].
Qed.

Lemma PRIVATE_test_mapped a : PRIVATE_test (show_mapped a) = false.
Proof. unfold show_mapped. apply PRIVATE_test_not_1. discriminate. Qed.

End RegexLangFacts.

(** ** The guard beyond the claims *)

Module TraceFacts.
Import SafeFetchFacts PathFacts.

(** Case analysis on the path of a call; on the verified path also on
    what [fetch] meets. Leaves the trace and outcome spelled out. *)
Ltac by_path W raw :=
  let P := fresh "P" in
  let r := fresh "r" in
  let Hr := fresh "Hr" in
  pose proof (safeFetch_path W raw) as P;
  remember (safeFetch W raw) as r eqn:Hr;
  destruct P as [Hparse | url Hparse Hs | url code Hparse Hs Hdns
                 | url ips Hparse Hs Hdns Hex
                 | url ips Hparse Hs Hdns Hex Hfirst
                 | url ips err Hparse Hs Hdns Hex Hfirst
                 | url ips remoteAddress Hparse Hs Hdns Hex Hfirst Hp
                 | url ips remoteAddress Hparse Hs Hdns Hex Hfirst Hp ];
  [ .. |
    rewrite (fetch_parsed _ _ Hparse) in *;
    let cause := fresh "cause" in
    let address := fresh "address" in
    let resp := fresh "resp" in
    destruct (fetch_lookup W (hostname url)) as [cause | address] eqn:Hlookup;
    [| destruct (http_get W address (effective_port url) raw) as [cause | resp] eqn:Hget] ].

Lemma verified_first W target :
  handshake_verified W target = true <->
  exists remoteAddress,
    first_in_time 3000 (tcp W 443 target) = Some (ev_connect remoteAddress) /\
    private_peer remoteAddress = false.
Proof.
  unfold handshake_verified. split.
  - destruct (first_in_time 3000 (tcp W 443 target)) as [[remoteAddress | err] |];
      try discriminate.
    intros H. apply negb_true_iff in H. eauto.
  - intros (remoteAddress & -> & ->). reflexivity.
Qed.

End TraceFacts.

Module Extras.
Import RegexLang RegexFacts RegexLangFacts SafeFetchFacts PathFacts TraceFacts Examples.

(** X1. On any text whatever, [PRIVATE.test] is true exactly when the
    text begins with one of the twenty literal prefixes [10.], [127.],
    [169.254.], [172.16.] to [172.31.] and [192.168.]. *)
Theorem X1_PRIVATE_is_a_prefix_list (s : string) :
  PRIVATE_test s = starts_with_any private_prefixes s.
Proof. exact (PRIVATE_test_prefixes s). Qed.

(** X2. [PRIVATE] accepts no text that does not begin with the
    character [1]: not the empty text, and no IPv6 text - in
    particular not the IPv4-mapped form [::ffff:a.b.c.d] of any IPv4
    address, private or not. *)
Theorem X2_PRIVATE_needs_leading_1 :
  PRIVATE_test "" = false /\
  (forall c s, c <> "1"%char -> PRIVATE_test (String c s) = false) /\
  (forall a, PRIVATE_test (show_mapped a) = false).
Proof.
  split; [reflexivity |]. split.
  - exact PRIVATE_test_not_1.
  - exact PRIVATE_test_mapped.
Qed.

(** X3. A peer that the socket reports in IPv4-mapped form passes the
    post-handshake check whatever the IPv4 address behind it: the call
    goes on to fetch and does not fail with the post-handshake kind. *)
Theorem X3_mapped_peer_passes
    (W : World) (raw : string) (url : URL) (ips : list string)
    (at_ms : N) (a : IPv4.t) (rest : list (N * SocketEvent)) :
  parse_url W raw = Some url ->
  protocol url = "https:" ->
  resolve4 W (hostname url) = inr ips ->
  existsb PRIVATE_test ips = false ->
  tcp W 443 (nth_error ips 0) = (at_ms, ev_connect (Some (show_mapped a))) :: rest ->
  (at_ms < 3000)%N ->
  handshake_verified W (nth_error ips 0) = true /\
  existsb is_fetch (fst (safeFetch W raw)) = true /\
  ~ fails_with (safeFetch W raw) private_address_post_handshake.
Proof.
  intros Hparse Hs Hdns Hex Htcp Hlt.
  assert (Hfirst : first_in_time 3000 (tcp W 443 (nth_error ips 0))
                   = Some (ev_connect (Some (show_mapped a))))
    by (rewrite Htcp; now apply first_in_time_head).
  assert (Hp : private_peer (Some (show_mapped a)) = false)
    by apply PRIVATE_test_mapped.
  pose proof (path_verified _ _ Hparse Hs Hdns Hex Hfirst Hp) as E.
  split; [| split].
  - apply verified_first. eauto.
  - rewrite E. cbn [fst]. destruct (fetch_starts W raw) as [tl ->]. reflexivity.
  - intros F. kind_clash.
Qed.

Lemma X3_witness :
  IPv4.in_private_block (IPv4.mk 127 0 0 1) = true /\
  existsb is_fetch
    (fst (safeFetch
            (mkWorld url_of (fun _ => inr ["93.184.216.34"])
                     (fun _ _ => [(20%N, ev_connect (Some "::ffff:127.0.0.1"))])
                     (fun _ => inr "93.184.216.34") serve)
            "https://example.com/a.png")) = true.
Proof.
  split; [reflexivity |].
  apply (@X3_mapped_peer_passes
           (mkWorld url_of (fun _ => inr ["93.184.216.34"])
                    (fun _ _ => [(20%N, ev_connect (Some "::ffff:127.0.0.1"))])
                    (fun _ => inr "93.184.216.34") serve)
           "https://example.com/a.png" (mkURL "https:" "example.com" None)
           ["93.184.216.34"] 20%N (IPv4.mk 127 0 0 1) []); reflexivity.
Defined.

(** X4. Whatever the path, a call creates at most one socket and
    releases it ([destroy] or [end]) before it returns; the timer it set
    is cleared unless it is the timer that rejected the call; and when
    [fetch] is called the socket has already been ended and the timer
    cleared. *)
Theorem X4_socket_and_timer_released (W : World) (raw : string) :
  count is_new_Socket (fst (safeFetch W raw)) <= 1 /\
  count is_destroy (fst (safeFetch W raw)) + count is_end (fst (safeFetch W raw)) =
    count is_new_Socket (fst (safeFetch W raw)) /\
  count is_clearTimeout (fst (safeFetch W raw)) +
    (if timed_out (safeFetch W raw) then 1 else 0) =
    count is_setTimeout (fst (safeFetch W raw)) /\
  (forall pre input post,
     fst (safeFetch W raw) = (pre ++ E_fetch input :: post)%list ->
     In E_end pre /\ In E_clearTimeout pre).
Proof.
  by_path W raw; cbn; (split; [lia |]); (split; [reflexivity |]);
    (split; [reflexivity |]); intros pre input post H.
  all: repeat (destruct pre as [| ? pre]; [discriminate H |];
               cbn in H; injection H as <- H).
  all: try (destruct pre; discriminate H).
  all: split; simpl; auto 10.
Qed.

(** X5. No retry and no second attempt: a call makes at most one
    [dns.resolve4], dials at most once, and calls [fetch] at most
    once. *)
Theorem X5_at_most_once (W : World) (raw : string) :
  count is_resolve4 (fst (safeFetch W raw)) <= 1 /\
  count is_connect (fst (safeFetch W raw)) <= 1 /\
  count is_fetch (fst (safeFetch W raw)) <= 1.
Proof.
  by_path W raw; cbn; repeat split; lia.
Qed.

(** X6. A call is fulfilled exactly when the text parses, the scheme
    is https, the lookup succeeds with no private address, the
    handshake is verified, and the resolution and retrieval made by
    [fetch] succeed; the value is then the response of that
    retrieval, untouched. *)
Theorem X6_fulfilled_exactly (W : World) (raw : string) (resp : Response) :
  snd (safeFetch W raw) = Fulfilled resp <->
  exists url ips address,
    parse_url W raw = Some url /\
    protocol url = "https:" /\
    resolve4 W (hostname url) = inr ips /\
    existsb PRIVATE_test ips = false /\
    handshake_verified W (nth_error ips 0) = true /\
    fetch_lookup W (hostname url) = inr address /\
    http_get W address (effective_port url) raw = inr resp.
Proof.
  split.
  - by_path W raw; cbn [snd]; try discriminate.
    intros [= <-]. exists url, ips, address.
    repeat split; try assumption. apply verified_first. eauto.
  - intros (url & ips & address & Hparse & Hs & Hdns & Hex & Hver & Hl & Hg).
    apply verified_first in Hver as (remoteAddress & Hfirst & Hp).
    rewrite (path_verified _ _ Hparse Hs Hdns Hex Hfirst Hp).
    cbn [snd]. rewrite (fetch_parsed _ _ Hparse), Hl, Hg. reflexivity.
Qed.

(** X7. The kind of a failure tells the caller which step refused:
    each of the eight kinds is obtained on exactly one condition on
    what the platform answered. *)
Theorem X7_kind_tells_the_step (W : World) (raw : string) :
  (fails_with (safeFetch W raw) invalid_url <-> parse_url W raw = None) /\
  (fails_with (safeFetch W raw) disallowed_scheme <->
     exists url, parse_url W raw = Some url /\ protocol url <> "https:") /\
  (fails_with (safeFetch W raw) resolution_error <->
     exists url code,
       parse_url W raw = Some url /\ protocol url = "https:" /\
       resolve4 W (hostname url) = inl code) /\
  (fails_with (safeFetch W raw) private_address_first_pass <->
     exists url ips,
       parse_url W raw = Some url /\ protocol url = "https:" /\
       resolve4 W (hostname url) = inr ips /\ existsb PRIVATE_test ips = true) /\
  (fails_with (safeFetch W raw) handshake_timeout <->
     exists url ips,
       parse_url W raw = Some url /\ protocol url = "https:" /\
       resolve4 W (hostname url) = inr ips /\ existsb PRIVATE_test ips = false /\
       first_in_time 3000 (tcp W 443 (nth_error ips 0)) = None) /\
  (fails_with (safeFetch W raw) handshake_error <->
     exists url ips err,
       parse_url W raw = Some url /\ protocol url = "https:" /\
       resolve4 W (hostname url) = inr ips /\ existsb PRIVATE_test ips = false /\
       first_in_time 3000 (tcp W 443 (nth_error ips 0)) = Some (ev_error err)) /\
  (fails_with (safeFetch W raw) private_address_post_handshake <->
     exists url ips remoteAddress,
       parse_url W raw = Some url /\ protocol url = "https:" /\
       resolve4 W (hostname url) = inr ips /\ existsb PRIVATE_test ips = false /\
       first_in_time 3000 (tcp W 443 (nth_error ips 0)) = Some (ev_connect remoteAddress) /\
       private_peer remoteAddress = true) /\
  (fails_with (safeFetch W raw) fetch_error <->
     exists url ips,
       parse_url W raw = Some url /\ protocol url = "https:" /\
       resolve4 W (hostname url) = inr ips /\ existsb PRIVATE_test ips = false /\
       handshake_verified W (nth_error ips 0) = true /\
       forall address,
         fetch_lookup W (hostname url) = inr address ->
         exists cause, http_get W address (effective_port url) raw = inl cause).
Proof.
  assert (Hv : forall ips,
             handshake_verified W (nth_error ips 0) = true ->
             exists remoteAddress,
               first_in_time 3000 (tcp W 443 (nth_error ips 0))
                 = Some (ev_connect remoteAddress) /\
               private_peer remoteAddress = false)
    by (intros ips; apply verified_first).
  by_path W raw; repeat apply conj.
  all: intros H.
  all: try match type of H with
           | fails_with _ _ =>
               let e := fresh "e" in
               let He := fresh "He" in
               let Hk := fresh "Hk" in
               destruct H as (e & He & Hk); cbn [snd] in He; try discriminate He;
               injection He as <-; cbn in Hk; try discriminate Hk
           end.
  all: try solve [ eauto 12 ].
  all: try solve [ eexists; split; reflexivity ].
  all: try solve [ repeat match goal with
                          | H : exists _, _ |- _ => destruct H
                          | H : _ /\ _ |- _ => destruct H
                          end; congruence ].
  all: try solve [ repeat match goal with
                          | H : exists _, _ |- _ => destruct H
                          | H : _ /\ _ |- _ => destruct H
                          end;
                   match goal with
                   | H : handshake_verified _ _ = true |- _ =>
                       apply Hv in H; destruct H as (? & ? & ?)
                   end; congruence ].
  (* what is left concerns the verified path and [fetch] *)
  all: try solve [ exists url, ips; repeat split; try assumption;
                   [ apply verified_first; eauto
                   | intros; congruence || eauto ] ].
  all: try solve [ destruct H as (url' & ips' & Hparse' & _ & Hdns' & _ & _ & Hall);
                   assert (url' = url) by congruence; subst url';
                   destruct (Hall _ Hlookup) as (cause' & Hc); congruence ].
  exists url, ips. repeat split; try assumption.
  - apply verified_first. eauto.
  - intros address0 Ha. assert (address0 = address) by congruence.
    subst address0. eauto.
Qed.

End Extras.

(** ** The rate limiter *)

Module RateLimitFacts.
Import RateLimit.

Lemma get_set_same k v m : get k (set k v m) = Some v.
Proof. unfold get, set. now rewrite String.eqb_refl. Qed.

Lemma get_set_other k k' v m : k' <> k -> get k' (set k v m) = get k' m.
Proof. intros H. unfold get, set. apply String.eqb_neq in H. now rewrite H. Qed.

(** One call inside the window of an existing entry. *)
Lemma check_in_window now u m c r :
  m u = Some (mk c r) -> (now <= r)%N ->
  checkRateLimit now u m =
  if (c <? RATE_LIMIT_MAX)%N then (true, set u (mk (c + 1) r) m) else (false, m).
Proof.
  intros Hm Hle. unfold checkRateLimit, get. rewrite Hm. cbn [resetAt count].
  assert (E : (r <? now)%N = false) by (apply N.ltb_ge; exact Hle).
  rewrite E. rewrite N.leb_antisym. now destruct (c <? RATE_LIMIT_MAX)%N.
Qed.

(** One call with no entry, or after the window of the entry. *)
Lemma check_fresh now u m :
  (m u = None \/ exists e, m u = Some e /\ (resetAt e < now)%N) ->
  checkRateLimit now u m = (true, set u (mk 1 (now + RATE_LIMIT_WINDOW)) m).
Proof.
  unfold checkRateLimit, get. intros [-> | (e & -> & Hlt)]; [reflexivity |].
  apply N.ltb_lt in Hlt. now rewrite Hlt.
Qed.

Lemma calls_in_window u times :
  forall m c r,
    m u = Some (mk c r) ->
    Forall (fun t => (t <= r)%N) times ->
    fst (calls u times m) =
      map (fun i => (c + N.of_nat i <? RATE_LIMIT_MAX)%N) (seq 0 (length times)) /\
    exists c', snd (calls u times m) u = Some (mk c' r) /\
               forall k, k <> u -> snd (calls u times m) k = m k.
Proof.
  induction times as [| t times IH]; intros m c r Hm Hall.
  - split; [reflexivity |]. exists c. split; [exact Hm | reflexivity].
  - inversion Hall as [| ? ? Ht Hrest]; subst.
    cbn [calls]. rewrite (check_in_window _ _ Hm Ht).
    destruct (c <? RATE_LIMIT_MAX)%N eqn:Hc.
    + destruct (IH (set u (mk (c + 1) r) m) (c + 1)%N r (get_set_same _ _ _) Hrest)
        as (Hfst & c' & Hsnd & Hother).
      destruct (calls u times (set u (mk (c + 1) r) m)) as [oks m''].
      cbn [fst snd] in *. split.
      * cbn [length seq map]. rewrite N.add_0_r, Hc. f_equal.
        rewrite Hfst, <- seq_shift, map_map. apply map_ext. intros i.
        f_equal. lia.
      * exists c'. split; [exact Hsnd |].
        intros k Hk. rewrite Hother by exact Hk. now apply get_set_other.
    + destruct (IH m c r Hm Hrest) as (Hfst & c' & Hsnd & Hother).
      destruct (calls u times m) as [oks m''].
      cbn [fst snd] in *. split.
      * cbn [length seq map]. rewrite N.add_0_r, Hc. f_equal.
        rewrite Hfst, <- seq_shift, map_map. apply map_ext. intros i.
        apply N.ltb_ge in Hc.
        transitivity false; [apply N.ltb_ge | symmetry; apply N.ltb_ge]; lia.
      * exists c'. split; [exact Hsnd | exact Hother].
Qed.

Lemma calls_exhausted u times :
  forall m c r,
    m u = Some (mk c r) -> (RATE_LIMIT_MAX <= c)%N ->
    Forall (fun t => (t <= r)%N) times ->
    calls u times m = (repeat false (length times), m).
Proof.
  induction times as [| t times IH]; intros m c r Hm Hc Hall; [reflexivity |].
  inversion Hall as [| ? ? Ht Hrest]; subst.
  cbn [calls]. rewrite (check_in_window _ _ Hm Ht).
  assert (E : (c <? RATE_LIMIT_MAX)%N = false) by (apply N.ltb_ge; exact Hc).
  rewrite E, (IH m c r Hm Hc Hrest). reflexivity.
Qed.

Lemma check_keeps_range now u m :
  counters_in_range m -> counters_in_range (snd (checkRateLimit now u m)).
Proof.
  intros Hinv k e. unfold checkRateLimit, get.
  destruct (m u) as [userLimit |] eqn:Hm.
  - destruct (resetAt userLimit <? now)%N.
    + cbn [snd]. unfold set. destruct (k =? u)%string.
      * intros [= <-]. cbn. unfold RATE_LIMIT_MAX. lia.
      * apply Hinv.
    + destruct (RATE_LIMIT_MAX <=? count userLimit)%N eqn:Hc.
      * cbn [snd]. apply Hinv.
      * cbn [snd]. unfold set. destruct (k =? u)%string.
        -- intros [= <-]. cbn. apply N.leb_gt in Hc.
           pose proof (Hinv _ _ Hm). lia.
        -- apply Hinv.
  - cbn [snd]. unfold set. destruct (k =? u)%string.
    + intros [= <-]. cbn. unfold RATE_LIMIT_MAX. lia.
    + apply Hinv.
Qed.

Lemma check_keeps_entries now u m k :
  m k <> None -> snd (checkRateLimit now u m) k <> None.
Proof.
  intros Hk. unfold checkRateLimit, get.
  destruct (m u) as [userLimit |];
    [destruct (resetAt userLimit <? now)%N;
     [| destruct (RATE_LIMIT_MAX <=? count userLimit)%N] |];
    cbn [snd]; unfold set; try exact Hk;
    destruct (k =? u)%string; try exact Hk; discriminate.
Qed.

Lemma check_other now u m k :
  k <> u -> snd (checkRateLimit now u m) k = m k.
Proof.
  intros Hk. unfold checkRateLimit, get.
  destruct (m u) as [userLimit |];
    [destruct (resetAt userLimit <? now)%N;
     [| destruct (RATE_LIMIT_MAX <=? count userLimit)%N] |];
    cbn [snd]; try reflexivity; now apply get_set_other.
Qed.

(** The answer to a user depends on that user's entry only. *)
Lemma check_answer_local now u m m' :
  m' u = m u -> fst (checkRateLimit now u m') = fst (checkRateLimit now u m).
Proof.
  intros H. unfold checkRateLimit, get. rewrite H.
  destruct (m u) as [userLimit |]; [| reflexivity].
  destruct (resetAt userLimit <? now)%N; [reflexivity |].
  destruct (RATE_LIMIT_MAX <=? count userLimit)%N; reflexivity.
Qed.

Lemma calls_fresh_window u t0 ts m :
  (m u = None \/ exists e, m u = Some e /\ (resetAt e < t0)%N) ->
  Forall (fun t => (t <= t0 + RATE_LIMIT_WINDOW)%N) ts ->
  fst (calls u (t0 :: ts) m) = map (fun i => (i <? 10)%nat) (seq 0 (S (length ts))).
Proof.
  intros Hfresh Hall. cbn [calls]. rewrite (check_fresh _ _ Hfresh).
  destruct (@calls_in_window u ts (set u (mk 1 (t0 + RATE_LIMIT_WINDOW)) m) 1%N
              (t0 + RATE_LIMIT_WINDOW)%N (get_set_same _ _ _) Hall) as (Hfst & _).
  destruct (calls u ts (set u (mk 1 (t0 + RATE_LIMIT_WINDOW)) m)) as [oks m''].
  cbn [fst] in *. cbn [length seq map]. f_equal.
  rewrite Hfst, <- seq_shift, map_map. apply map_ext_in. intros i _.
  unfold RATE_LIMIT_MAX.
  destruct (Nat.ltb_spec (S i) 10); [apply N.ltb_lt | apply N.ltb_ge]; lia.
Qed.

End RateLimitFacts.

Module RateLimitProps.
Import RateLimit RateLimitFacts.

(** X8. Of the calls a user makes in one window - the call that opens
    it, with no entry or after the previous window, and any number of
    calls up to its [resetAt] - exactly the first ten are allowed. *)
Theorem X8_ten_per_window (u : string) (t0 : N) (ts : list N) (m : store) :
  (m u = None \/ exists e, m u = Some e /\ (resetAt e < t0)%N) ->
  Forall (fun t => (t <= t0 + RATE_LIMIT_WINDOW)%N) ts ->
  fst (calls u (t0 :: ts) m) = map (fun i => (i <? 10)%nat) (seq 0 (S (length ts))).
Proof. exact (@calls_fresh_window u t0 ts m). Qed.

Lemma X8_witness :
  fst (calls "user-123" [1000; 1001; 1002; 1003; 1004; 1005; 1006; 1007; 1008; 1009;
                         1010; 61000]%N empty) =
  [true; true; true; true; true; true; true; true; true; true; false; false].
Proof.
  apply (@X8_ten_per_window "user-123" 1000%N
           [1001; 1002; 1003; 1004; 1005; 1006; 1007; 1008; 1009; 1010; 61000]%N empty).
  - left. reflexivity.
  - repeat constructor; unfold RATE_LIMIT_WINDOW; lia.
Defined.

(** X9. A user who has used up the window is refused by every further
    call up to [resetAt], the instant [resetAt] included, and such
    calls leave the store as it is: they do not postpone the reset.
    The first call after [resetAt] is allowed and opens a new window
    with the counter at 1. *)
Theorem X9_refusals_do_not_postpone_reset
    (u : string) (c r : N) (times : list N) (t' : N) (m : store) :
  m u = Some (mk c r) ->
  (RATE_LIMIT_MAX <= c)%N ->
  Forall (fun t => (t <= r)%N) times ->
  (r < t')%N ->
  calls u times m = (repeat false (length times), m) /\
  checkRateLimit r u m = (false, m) /\
  checkRateLimit t' u (snd (calls u times m)) =
    (true, set u (mk 1 (t' + RATE_LIMIT_WINDOW)) m).
Proof.
  intros Hm Hc Hall Hlt.
  pose proof (@calls_exhausted u times m c r Hm Hc Hall) as E. rewrite E. cbn [snd].
  split; [reflexivity |]. split.
  - rewrite (check_in_window _ _ Hm (N.le_refl r)).
    assert (F : (c <? RATE_LIMIT_MAX)%N = false) by (apply N.ltb_ge; exact Hc).
    now rewrite F.
  - apply check_fresh. right. exists (mk c r). split; [exact Hm | exact Hlt].
Qed.

Lemma X9_witness :
  calls "u" [5; 60000; 7]%N (set "u" (mk 10 60000) empty) =
    ([false; false; false], set "u" (mk 10 60000) empty) /\
  checkRateLimit 60000 "u" (set "u" (mk 10 60000) empty) =
    (false, set "u" (mk 10 60000) empty) /\
  checkRateLimit 60001 "u" (snd (calls "u" [5; 60000; 7]%N (set "u" (mk 10 60000) empty))) =
    (true, set "u" (mk 1 (60001 + RATE_LIMIT_WINDOW)) (set "u" (mk 10 60000) empty)).
Proof.
  apply (@X9_refusals_do_not_postpone_reset "u" 10%N 60000%N [5; 60000; 7]%N 60001%N
           (set "u" (mk 10 60000) empty)).
  - reflexivity.
  - unfold RATE_LIMIT_MAX. lia.
  - repeat constructor; lia.
  - lia.
Defined.

(** X10. Whatever calls are made, by whatever users and at whatever
    times (the clock may even go backwards), every counter in the
    store stays between 1 and 10, and no entry is ever removed: a
    user once seen has an entry for ever. *)
Theorem X10_counters_bounded_entries_kept (cs : list (N * string)) (m : store) :
  counters_in_range m ->
  counters_in_range (run cs m) /\
  (forall k, m k <> None -> run cs m k <> None).
Proof.
  revert m. induction cs as [| [now u] cs IH]; intros m Hinv; [split; auto |].
  cbn [run]. destruct (IH _ (check_keeps_range now u Hinv)) as (H1 & H2).
  split; [exact H1 |]. intros k Hk. apply H2. now apply check_keeps_entries.
Qed.

Lemma X10_witness :
  counters_in_range (run [(5, "a"); (3, "b"); (70000, "a")]%N empty) /\
  (forall k, empty k <> None ->
             run [(5, "a"); (3, "b"); (70000, "a")]%N empty k <> None).
Proof.
  apply (@X10_counters_bounded_entries_kept [(5, "a"); (3, "b"); (70000, "a")]%N empty).
  intros k e H. discriminate H.
Defined.

(** X11. Users do not affect one another: calls made by other users
    leave a user's entry untouched, and so leave unchanged the answer
    the user gets next. *)
Theorem X11_users_are_isolated
    (cs : list (N * string)) (u : string) (now : N) (m : store) :
  Forall (fun c => snd c <> u) cs ->
  run cs m u = m u /\
  fst (checkRateLimit now u (run cs m)) = fst (checkRateLimit now u m).
Proof.
  intros Hall.
  assert (E : run cs m u = m u).
  { revert m. induction Hall as [| [t k] cs Hk _ IH]; intros m; [reflexivity |].
    cbn [run]. rewrite IH. apply check_other. cbn in Hk. congruence. }
  split; [exact E | now apply check_answer_local].
Qed.

Lemma X11_witness :
  run [(1, "b"); (2, "c"); (3, "b")]%N (set "a" (mk 10 60000) empty) "a" =
    Some (mk 10 60000) /\
  fst (checkRateLimit 4 "a" (run [(1, "b"); (2, "c"); (3, "b")]%N
                               (set "a" (mk 10 60000) empty))) =
  fst (checkRateLimit 4 "a" (set "a" (mk 10 60000) empty)).
Proof.
  apply (@X11_users_are_isolated [(1, "b"); (2, "c"); (3, "b")]%N "a" 4%N
           (set "a" (mk 10 60000) empty)).
  repeat constructor; cbn; discriminate.
Defined.

End RateLimitProps.

(** ** The server actions *)

Module TransferFacts.
Import RegexLang RegexFacts Transfer.

Lemma accepts_spec s : forall r, accepts r s = true <-> matches r s.
Proof.
  induction s as [| c s IH]; intros r; cbn [accepts].
  - apply nullable_matches.
  - rewrite IH. apply deriv_matches.
Qed.

Lemma matches_Lit p : forall s, matches (Lit p) s <-> s = p.
Proof.
  induction p as [| c p IH]; intros s; cbn [Lit]; split.
  - intros H. now inversion H.
  - intros ->. constructor.
  - intros H. inversion H as [| | | r1 r2 s1 s2 H1 H2 | |]; subst.
    inversion H1; subst. apply IH in H2. now subst.
  - intros ->. change (String c p) with (String c "" ++ p).
    constructor; [constructor | now apply IH].
Qed.

Lemma matches_digits n : forall s,
  matches (times n digit) s <-> String.length s = n /\ all_digits s = true.
Proof.
  induction n as [| n IH]; intros s; cbn [times]; split.
  - intros H. inversion H. split; reflexivity.
  - intros [Hl _]. destruct s; [constructor | discriminate].
  - intros H. inversion H as [| | | r1 r2 s1 s2 H1 H2 | |]; subst.
    inversion H1 as [| | lo hi c Hc | | |]; subst. apply IH in H2 as [Hl Hd].
    cbn. now rewrite Hl, Hc, Hd.
  - intros [Hl Hd]. destruct s as [| c s]; [discriminate |].
    cbn in Hl, Hd. apply andb_true_iff in Hd as [Hc Hd].
    change (String c s) with (String c "" ++ s).
    constructor; [now constructor | apply IH; split; congruence].
Qed.

Lemma ACCOUNT_test_spec s : ACCOUNT_test s = true <-> account_format s.
Proof.
  unfold ACCOUNT_test, ACCOUNT, account_format. rewrite accepts_spec. split.
  - intros H. inversion H as [| | | r1 r2 s1 s2 H1 H2 | |]; subst.
    apply (matches_Lit "ACC-") in H1. apply (matches_digits 6) in H2 as [Hl Hd]. subst s1.
    now exists s2.
  - intros (ds & -> & Hl & Hd).
    constructor; [now apply (matches_Lit "ACC-") | now apply (matches_digits 6)].
Qed.

Lemma parse_account_spec v acc :
  parse_account v = Some acc <-> v = JString acc /\ account_format acc.
Proof.
  unfold parse_account. split.
  - destruct v as [| | | | s | |]; try discriminate.
    destruct (ACCOUNT_test s) eqn:E; [| discriminate].
    intros [= <-]. split; [reflexivity | now apply ACCOUNT_test_spec].
  - intros [-> H]. apply ACCOUNT_test_spec in H. now rewrite H.
Qed.

Lemma parse_amount_spec v a :
  parse_amount v = Some a <-> v = JNumber (Int a) /\ (1 <= a <= 1000000)%Z.
Proof.
  unfold parse_amount. split.
  - destruct v as [| | | [z | |] | | |]; try discriminate.
    destruct ((0 <? z) && (z <=? 1000000))%Z eqn:E; [| discriminate].
    intros [= <-]. apply andb_true_iff in E as [E1 E2].
    apply Z.ltb_lt in E1. apply Z.leb_le in E2. split; [reflexivity | lia].
  - intros [-> H].
    assert (E : ((0 <? a) && (a <=? 1000000))%Z = true).
    { apply andb_true_iff. split; [apply Z.ltb_lt | apply Z.leb_le]; lia. }
    now rewrite E.
Qed.

Lemma parse_description_spec v :
  (exists d, parse_description v = Some d) <-> description_ok v.
Proof.
  unfold parse_description, description_ok. split.
  - intros [d H]. destruct v as [| | | | s | |]; try discriminate; [now left |].
    destruct (Nat.leb_spec (String.length s) 200); [| discriminate].
    right. now exists s.
  - intros [-> | (s & -> & Hl)]; [now eexists |].
    apply Nat.leb_le in Hl. rewrite Hl. now eexists.
Qed.

(** The schema, in words of the payload. *)
Lemma TransferSchema_parse_spec payload a acc :
  (exists d, TransferSchema_parse payload = Some (mkInput a acc d)) <->
  exists fields,
    payload = JObject fields /\
    field "amount" fields = JNumber (Int a) /\ (1 <= a <= 1000000)%Z /\
    field "toAccount" fields = JString acc /\ account_format acc /\
    description_ok (field "description" fields).
Proof.
  split.
  - intros [d H]. destruct payload as [| | | | | | fields]; try discriminate.
    cbn [TransferSchema_parse] in H.
    destruct (parse_amount (field "amount" fields)) as [a' |] eqn:Ha; [| discriminate].
    destruct (parse_account (field "toAccount" fields)) as [acc' |] eqn:Hacc;
      [| discriminate].
    destruct (parse_description (field "description" fields)) as [d' |] eqn:Hd;
      [| discriminate].
    injection H as <- <- <-.
    apply parse_amount_spec in Ha as [Ha1 Ha2].
    apply parse_account_spec in Hacc as [Hc1 Hc2].
    exists fields. repeat split; try assumption; try lia.
    apply parse_description_spec. now exists d'.
  - intros (fields & -> & Ha & Hr & Hacc & Hf & Hd).
    apply parse_description_spec in Hd as [d Hd]. exists d.
    cbn [TransferSchema_parse].
    rewrite (proj2 (parse_amount_spec _ a) (conj Ha Hr)).
    rewrite (proj2 (parse_account_spec _ acc) (conj Hacc Hf)).
    now rewrite Hd.
Qed.

(** [transferFunds] with the mock session unfolded. *)
Lemma transferFunds_unfold env payload m :
  transferFunds env payload m =
  let (allowed, m') := RateLimit.checkRateLimit (now env) "user-123" m in
  if allowed then
    match TransferSchema_parse payload with
    | None =>
        if stringifiable payload then
          (Returned (TransferFailure bad_input (uuid env)), m')
        else (Threw_TypeError, m')
    | Some validatedData =>
        if (mockBalance <? amount validatedData)%Z then
          (Returned (TransferFailure insufficient_funds (uuid env)), m')
        else
          (Returned (TransferSuccess
                       ("TXN-" ++ decimal (txn_now env) ++ "-" ++ random36 env)
                       (amount validatedData) (toAccount validatedData)
                       (iso_time env)), m')
    end
  else (Returned (TransferFailure rate_limited (uuid env)), m').
Proof.
  unfold transferFunds. cbn [getSession roles userId includes existsb].
  destruct (RateLimit.checkRateLimit (now env) "user-123" m) as [[|] m']; reflexivity.
Qed.

Lemma parse_undefined : TransferSchema_parse JUndefined = None.
Proof. reflexivity. Qed.

End TransferFacts.

(** ** The dashboard page *)

Module DashboardProps.
Import SafeFetchFacts PathFacts TraceFacts Examples.

(** X12. Loading the dashboard never fails, whatever [safeFetch]
    does: the page always gets its data. Without an [avatarUrl], or
    with the empty one, nothing is looked up, dialled or fetched and
    neither the avatar nor the error is set; with one, exactly one of
    the two is set. *)
Theorem X12_dashboard_always_renders
    (W : World) (base64 : string -> string) (platform_message : Thrown -> string)
    (avatarUrl : option string) :
  exists d,
    snd (Dashboard.Dashboard W base64 platform_message avatarUrl) = Fulfilled d /\
    (Dashboard.truthy avatarUrl = false ->
       d = Dashboard.mk None None /\
       fst (Dashboard.Dashboard W base64 platform_message avatarUrl) = []) /\
    (Dashboard.truthy avatarUrl = true ->
       (Dashboard.avatarBase64 d = None <-> Dashboard.error d <> None)).
Proof.
  destruct avatarUrl as [[| c s] |].
  - eexists. split; [reflexivity |]. split; [now split | discriminate].
  - unfold Dashboard.Dashboard.
    by_path W (String c s); cbn [fst snd]; eexists; (split; [reflexivity |]);
      (split; [discriminate |]); intros _; cbn; split; congruence.
  - eexists. split; [reflexivity |]. split; [now split | discriminate].
Qed.

(** X13. An avatar is shown only for a URL that went through the whole
    guard: it parsed, was https, resolved to no private address, had
    its handshake verified, and the avatar is the encoding of the body
    that [fetch] then retrieved; no error is shown beside it. *)
Theorem X13_avatar_only_through_the_guard
    (W : World) (base64 : string -> string) (platform_message : Thrown -> string)
    (avatarUrl : option string) (d : Dashboard.data) (b : string) :
  snd (Dashboard.Dashboard W base64 platform_message avatarUrl) = Fulfilled d ->
  Dashboard.avatarBase64 d = Some b ->
  Dashboard.error d = None /\
  exists raw url ips address resp,
    avatarUrl = Some raw /\
    parse_url W raw = Some url /\
    protocol url = "https:" /\
    resolve4 W (hostname url) = inr ips /\
    existsb PRIVATE_test ips = false /\
    handshake_verified W (nth_error ips 0) = true /\
    fetch_lookup W (hostname url) = inr address /\
    http_get W address (effective_port url) raw = inr resp /\
    b = base64 (body resp).
Proof.
  destruct avatarUrl as [[| c s] |]; cbn; try (intros [= <-]; discriminate).
  unfold Dashboard.Dashboard.
  by_path W (String c s); cbn [fst snd]; intros [= <-]; cbn; try discriminate.
  intros [= <-]. split; [reflexivity |].
  exists (String c s), url, ips, address, resp.
  repeat split; try assumption. apply verified_first. eauto.
Qed.

Lemma X13_witness :
  Dashboard.error (Dashboard.mk (Some "PNG") None) = None /\
  exists raw url ips address resp,
    Some "https://example.com/a.png" = Some raw /\
    parse_url honest raw = Some url /\
    protocol url = "https:" /\
    resolve4 honest (hostname url) = inr ips /\
    existsb PRIVATE_test ips = false /\
    handshake_verified honest (nth_error ips 0) = true /\
    fetch_lookup honest (hostname url) = inr address /\
    http_get honest address (effective_port url) raw = inr resp /\
    "PNG" = (fun s : string => s) (body resp).
Proof.
  apply (@X13_avatar_only_through_the_guard
           honest (fun s => s) (fun _ => "platform error")
           (Some "https://example.com/a.png") (Dashboard.mk (Some "PNG") None) "PNG");
    reflexivity.
Defined.

End DashboardProps.

Module TransferSeqFacts.
Import Transfer TransferFacts RateLimit RateLimitFacts.

Lemma transferFunds_answer env payload m :
  transferFunds env payload m =
  (transfer_answer env payload (fst (checkRateLimit (now env) "user-123" m)),
   snd (checkRateLimit (now env) "user-123" m)).
Proof.
  rewrite transferFunds_unfold. unfold transfer_answer.
  destruct (checkRateLimit (now env) "user-123" m) as [[|] m']; cbn [fst snd];
    [| reflexivity].
  destruct (TransferSchema_parse payload) as [v |].
  - destruct (mockBalance <? amount v)%Z; reflexivity.
  - destruct (stringifiable payload); reflexivity.
Qed.

(** A sequence of transfers is answered from the flags the limiter
    gives to the sequence of their times. *)
Lemma transfers_answers cs : forall m,
  transfers cs m =
  map (fun ca => transfer_answer (fst (fst ca)) (snd (fst ca)) (snd ca))
      (combine cs (fst (calls "user-123" (map (fun c => now (fst c)) cs) m))).
Proof.
  induction cs as [| [env payload] cs IH]; intros m; [reflexivity |].
  cbn [transfers map calls fst]. rewrite transferFunds_answer.
  destruct (checkRateLimit (now env) "user-123" m) as [ok m'].
  cbn [fst snd]. rewrite (IH m').
  destruct (calls "user-123" (map (fun c => now (fst c)) cs) m') as [oks m''].
  reflexivity.
Qed.

Lemma answer_allowed_not_limited env payload :
  is_rate_limited (transfer_answer env payload true) = false.
Proof.
  unfold transfer_answer.
  destruct (TransferSchema_parse payload) as [v |].
  - destruct (mockBalance <? amount v)%Z; reflexivity.
  - destruct (stringifiable payload); reflexivity.
Qed.

Lemma answer_limited env payload ok :
  is_rate_limited (transfer_answer env payload ok) = negb ok.
Proof.
  destruct ok; [apply answer_allowed_not_limited | reflexivity].
Qed.

Lemma limited_flags cs : forall flags,
  length flags = length cs ->
  map is_rate_limited
      (map (fun ca : Env * JSValue * bool =>
              transfer_answer (fst (fst ca)) (snd (fst ca)) (snd ca))
           (combine cs flags)) =
  map negb flags.
Proof.
  induction cs as [| c cs IH]; intros [| ok flags] Hl; try discriminate; [reflexivity |].
  cbn [combine map fst snd]. rewrite answer_limited. f_equal. apply IH.
  now injection Hl.
Qed.

End TransferSeqFacts.

Module TransferProps.
Import Transfer TransferFacts TransferSeqFacts RateLimit RateLimitFacts.

(** X14. The account pattern accepts exactly the texts made of [ACC-]
    followed by six decimal digits: nothing before, nothing after,
    no other length. *)
Theorem X14_account_format (s : string) :
  ACCOUNT_test s = true <-> account_format s.
Proof. exact (ACCOUNT_test_spec s). Qed.

(** X15. A transfer succeeds exactly when the limiter allows the call
    and the payload is an object whose [amount] is an integer from 1 to
    50000, whose [toAccount] has the account format and whose
    [description] is absent or a text of at most 200 code units. The
    result then carries that amount and account unchanged, the
    transaction id [TXN-<clock>-<random>] and the timestamp; any other
    key of the payload is ignored. *)
Theorem X15_transfer_succeeds_exactly
    (env : Env) (payload : JSValue) (m : store)
    (id : string) (a : Z) (acc ts : string) :
  fst (transferFunds env payload m) = Returned (TransferSuccess id a acc ts) <->
  fst (checkRateLimit (now env) "user-123" m) = true /\
  (exists fields,
     payload = JObject fields /\
     field "amount" fields = JNumber (Int a) /\ (1 <= a <= 50000)%Z /\
     field "toAccount" fields = JString acc /\ account_format acc /\
     description_ok (field "description" fields)) /\
  id = "TXN-" ++ decimal (txn_now env) ++ "-" ++ random36 env /\
  ts = iso_time env.
Proof.
  rewrite transferFunds_answer. cbn [fst]. unfold transfer_answer. split.
  - destruct (fst (checkRateLimit (now env) "user-123" m)); [| discriminate].
    destruct (TransferSchema_parse payload) as [[a' acc' d] |] eqn:Hparse.
    + cbn [amount toAccount].
      destruct (Z.ltb_spec mockBalance a'); [discriminate |].
      intros [= <- <- <- <-]. split; [reflexivity |].
      destruct (proj1 (TransferSchema_parse_spec payload a' acc') (ex_intro _ d Hparse))
        as (fields & Hp & Ha & Hr & Hacc & Hf & Hd).
      unfold mockBalance in *. split; [| split; reflexivity].
      exists fields. repeat split; try assumption; lia.
    + destruct (stringifiable payload); discriminate.
  - intros (-> & (fields & Hp & Ha & Hr & Hacc & Hf & Hd) & -> & ->).
    assert (Hex : exists d, TransferSchema_parse payload = Some (mkInput a acc d)).
    { apply TransferSchema_parse_spec. exists fields.
      repeat split; try assumption; lia. }
    destruct Hex as [d ->]. cbn [amount toAccount].
    destruct (Z.ltb_spec mockBalance a); [unfold mockBalance in *; lia | reflexivity].
Qed.

(** X16. The failures of a transfer. With the mock session the action
    never answers [unauthorized] and never [backend]. It answers
    [rate_limited] exactly when the limiter refuses;
    [insufficient_funds] exactly when the limiter allows and the payload
    is valid with an amount from 50001 to 1000000; [bad_input] exactly
    when the limiter allows, the schema refuses the payload and
    [JSON.stringify] of the payload is a text, so that the log of the
    refusal can be written. The [id] is always the fresh UUID. *)
Theorem X16_transfer_failures (env : Env) (payload : JSValue) (m : store) :
  (forall e id,
     fst (transferFunds env payload m) = Returned (TransferFailure e id) ->
     id = uuid env /\ e <> unauthorized /\ e <> backend) /\
  (fst (transferFunds env payload m) = Returned (TransferFailure rate_limited (uuid env)) <->
     fst (checkRateLimit (now env) "user-123" m) = false) /\
  (fst (transferFunds env payload m) =
     Returned (TransferFailure insufficient_funds (uuid env)) <->
     fst (checkRateLimit (now env) "user-123" m) = true /\
     exists fields a acc,
       payload = JObject fields /\
       field "amount" fields = JNumber (Int a) /\ (50000 < a <= 1000000)%Z /\
       field "toAccount" fields = JString acc /\ account_format acc /\
       description_ok (field "description" fields)) /\
  (fst (transferFunds env payload m) = Returned (TransferFailure bad_input (uuid env)) <->
     fst (checkRateLimit (now env) "user-123" m) = true /\
     TransferSchema_parse payload = None /\
     stringifiable payload = true).
Proof.
  rewrite transferFunds_answer. cbn [fst]. unfold transfer_answer.
  split; [| split; [| split]].
  - intros e id.
    destruct (fst (checkRateLimit (now env) "user-123" m));
      [destruct (TransferSchema_parse payload) as [v |];
       [destruct (mockBalance <? amount v)%Z | destruct (stringifiable payload)] |];
      try discriminate; intros [= <- <-]; repeat split; discriminate.
  - destruct (fst (checkRateLimit (now env) "user-123" m));
      [destruct (TransferSchema_parse payload) as [v |];
       [destruct (mockBalance <? amount v)%Z | destruct (stringifiable payload)] |];
      split; try discriminate; reflexivity.
  - split.
    + destruct (fst (checkRateLimit (now env) "user-123" m)); [| discriminate].
      destruct (TransferSchema_parse payload) as [[a acc d] |] eqn:Hparse;
        [| destruct (stringifiable payload); discriminate].
      cbn [amount]. destruct (Z.ltb_spec mockBalance a) as [Hlt | Hge]; [| discriminate].
      intros _. split; [reflexivity |].
      destruct (proj1 (TransferSchema_parse_spec payload a acc) (ex_intro _ d Hparse))
        as (fields & Hp & Ha & Hr & Hacc & Hf & Hd).
      exists fields, a, acc. unfold mockBalance in Hlt.
      repeat split; try assumption; lia.
    + intros (-> & fields & a & acc & Hp & Ha & Hr & Hacc & Hf & Hd).
      assert (Hex : exists d, TransferSchema_parse payload = Some (mkInput a acc d)).
      { apply TransferSchema_parse_spec. exists fields.
        repeat split; try assumption; lia. }
      destruct Hex as [d ->]. cbn [amount].
      destruct (Z.ltb_spec mockBalance a); [reflexivity | unfold mockBalance in *; lia].
  - split.
    + destruct (fst (checkRateLimit (now env) "user-123" m)); [| discriminate].
      destruct (TransferSchema_parse payload) as [v |] eqn:Hparse;
        [destruct (mockBalance <? amount v)%Z; discriminate |].
      destruct (stringifiable payload); [| discriminate].
      intros _. repeat split.
    + intros (-> & -> & ->). reflexivity.
Qed.

(** X17. A transfer ends in a rejected promise, instead of returning a
    result object, exactly when the payload is [undefined] and the
    limiter allows the call: the log of the validation failure applies
    [.slice] to [JSON.stringify(undefined)]. For every other payload
    the action returns a result object. *)
Theorem X17_transfer_throws_exactly (env : Env) (payload : JSValue) (m : store) :
  (fst (transferFunds env payload m) = Threw_TypeError <->
     payload = JUndefined /\ fst (checkRateLimit (now env) "user-123" m) = true) /\
  (payload <> JUndefined -> exists r, fst (transferFunds env payload m) = Returned r).
Proof.
  rewrite transferFunds_answer. cbn [fst]. unfold transfer_answer.
  split; [split |].
  - destruct (fst (checkRateLimit (now env) "user-123" m)); [| discriminate].
    destruct (TransferSchema_parse payload) as [v |] eqn:Hparse;
      [destruct (mockBalance <? amount v)%Z; discriminate |].
    destruct payload; cbn [stringifiable]; try discriminate. now split.
  - intros (-> & ->). reflexivity.
  - intros Hne.
    destruct (fst (checkRateLimit (now env) "user-123" m)); [| eauto].
    destruct (TransferSchema_parse payload) as [v |];
      [destruct (mockBalance <? amount v)%Z; eauto |].
    destruct payload; cbn [stringifiable]; eauto. now contradiction Hne.
Qed.

(** X18. The limiter is charged before the payload is looked at: in
    a window, whatever the payloads are - valid, refused by the schema,
    or [undefined] - the first ten calls are not answered
    [rate_limited] and every later one is. *)
Theorem X18_every_call_is_charged
    (env0 : Env) (p0 : JSValue) (cs : list (Env * JSValue)) (m : store) :
  (m "user-123" = None \/
   exists e, m "user-123" = Some e /\ (resetAt e < now env0)%N) ->
  Forall (fun c => (now (fst c) <= now env0 + RATE_LIMIT_WINDOW)%N) cs ->
  map is_rate_limited (transfers ((env0, p0) :: cs) m) =
  map (fun i => (10 <=? i)%nat) (seq 0 (S (length cs))).
Proof.
  intros Hfresh Hall. rewrite transfers_answers.
  cbn [map fst].
  assert (Hall' : Forall (fun t => (t <= now env0 + RATE_LIMIT_WINDOW)%N)
                         (map (fun c : Env * JSValue => now (fst c)) cs)).
  { apply Forall_map. exact Hall. }
  pose proof (@calls_fresh_window "user-123" (now env0) _ m Hfresh Hall') as E.
  rewrite E, length_map.
  rewrite limited_flags by (now rewrite length_map, length_seq).
  rewrite map_map. apply map_ext. intros i.
  destruct (Nat.ltb_spec i 10), (Nat.leb_spec 10 i); try reflexivity; lia.
Qed.

Lemma X18_witness :
  map is_rate_limited
      (transfers
         (repeat (mkEnv 5 5 "abc123" "2024-01-01T00:00:00.000Z" "id", JUndefined) 12)
         empty) =
  [false; false; false; false; false; false; false; false; false; false; true; true].
Proof.
  apply (@X18_every_call_is_charged
           (mkEnv 5 5 "abc123" "2024-01-01T00:00:00.000Z" "id") JUndefined
           (repeat (mkEnv 5 5 "abc123" "2024-01-01T00:00:00.000Z" "id", JUndefined) 11)
           empty).
  - left. reflexivity.
  - repeat constructor; cbn; unfold RATE_LIMIT_WINDOW; lia.
Defined.

(** X19. The balance query succeeds exactly when the payload is an
    object whose [accountId] has the account format, and then answers
    the same 50000 BRL whatever the account; every other payload,
    [undefined] included, gets [invalid_input]: the action never
    throws, and never answers [unauthorized] or [not_found]. *)
Theorem X19_balance_query (payload : JSValue) :
  (getAccountBalance payload = Returned (BalanceSuccess 50000 "BRL") <->
     exists fields acc,
       payload = JObject fields /\
       field "accountId" fields = JString acc /\ account_format acc) /\
  (getAccountBalance payload = Returned (BalanceSuccess 50000 "BRL") \/
   getAccountBalance payload = Returned (BalanceFailure balance_invalid_input)).
Proof.
  unfold getAccountBalance. cbn [getSession]. split.
  - split.
    + destruct (BalanceQuerySchema_parse payload) as [acc |] eqn:H; [| discriminate].
      intros _. destruct payload as [| | | | | | fields]; try discriminate.
      cbn [BalanceQuerySchema_parse] in H. apply parse_account_spec in H as [H1 H2].
      now exists fields, acc.
    + intros (fields & acc & -> & H1 & H2). cbn [BalanceQuerySchema_parse].
      now rewrite (proj2 (parse_account_spec _ acc) (conj H1 H2)).
  - destruct (BalanceQuerySchema_parse payload); [now left | now right].
Qed.

End TransferProps.

(** ** The tester against the action *)

Module TransferTesterProps.
Import Transfer TransferFacts TransferSeqFacts RateLimit RateLimitFacts TransferTester.

Lemma times_of_combine (envs : list Env) : forall (ps : list JSValue),
  length envs = length ps ->
  map (fun c : Env * JSValue => now (fst c)) (combine envs ps) = map now envs.
Proof.
  induction envs as [| e envs IH]; intros [| p ps] Hl; try discriminate; [reflexivity |].
  cbn [combine map fst]. f_equal. apply IH. now injection Hl.
Qed.

(** X20. The five test cases of the tester get the results they
    expect, but only while the limiter allows the calls: run three
    times in a row within one window, the suite passes twice (ten
    calls) and every case of the third run fails, answered
    [rate_limited]. *)
Theorem X20_suite_passes_twice_per_window (e0 : Env) (es : list Env) (m : store) :
  (m "user-123" = None \/
   exists e, m "user-123" = Some e /\ (resetAt e < now e0)%N) ->
  length es = 14 ->
  Forall (fun e => (now e <= now e0 + RATE_LIMIT_WINDOW)%N) es ->
  verdicts (e0 :: es) (testCases ++ testCases ++ testCases) m =
  (repeat true 10 ++ repeat false 5)%list.
Proof.
  intros Hfresh Hlen Hall. unfold verdicts. rewrite transfers_answers.
  rewrite times_of_combine
    by (cbn [length]; rewrite Hlen; reflexivity).
  cbn [map].
  rewrite (@calls_fresh_window "user-123" (now e0) (map now es) m Hfresh)
    by (apply Forall_map; exact Hall).
  rewrite length_map, Hlen.
  do 14 (destruct es as [| ? es]; [discriminate Hlen |]).
  destruct es; [| discriminate Hlen].
  vm_compute. reflexivity.
Qed.

Lemma X20_witness :
  verdicts (repeat (mkEnv 5 5 "abc123" "2024-01-01T00:00:00.000Z" "id") 15)
           (testCases ++ testCases ++ testCases) empty =
  (repeat true 10 ++ repeat false 5)%list.
Proof.
  apply (@X20_suite_passes_twice_per_window
           (mkEnv 5 5 "abc123" "2024-01-01T00:00:00.000Z" "id")
           (repeat (mkEnv 5 5 "abc123" "2024-01-01T00:00:00.000Z" "id") 14) empty).
  - left. reflexivity.
  - reflexivity.
  - repeat constructor; cbn; unfold RATE_LIMIT_WINDOW; lia.
Defined.

End TransferTesterProps.
